(** * EEG-Inception for Motor Imagery: shapes, data flow and aliasing

    A shallow embedding of [braindecode/models/eeginception_mi.py].

    The network is a composition of [torch.nn] layers.  The embedding keeps
    the three classes of the file ([EEGInceptionMI], [_InceptionModuleMI],
    [_ResidualModuleMI]) as records built by their constructors and run by
    their [forward] methods, written once over an abstract tensor library
    (class [Torch]).  The library is then instantiated with the shape
    contracts of the layers as documented by PyTorch, which is the level at
    which the file can go wrong: a shape mismatch raises, and an exception
    is [None] here.

    Python floats are IEEE binary64 numbers, so the configuration values
    [input_window_s], [sfreq] and [kernel_unit_s] are primitive floats and
    [int(...)] is computed on their exact value. *)

From Stdlib Require Import ZArith QArith Qround Floats Lia.
From stdpp Require Import base option list gmap.

Local Open Scope Z_scope.

(** ** Python numerics *)

Module Py.

(** The exact rational value of a finite binary64 number. *)
Definition float_to_Q (x : float) : option Q :=
  match Prim2SF x with
  | S754_zero _ => Some (0 # 1)%Q
  | S754_finite s m e =>
      let n := if s then Z.neg m else Z.pos m in
      Some (if 0 <=? e then (n * 2 ^ e # 1)%Q
            else (n # Z.to_pos (2 ^ (- e)))%Q)
  | S754_infinity _ | S754_nan => None
  end.

(** Truncation toward zero of a rational. *)
Definition Qtrunc (q : Q) : Z := Z.quot (Qnum q) (Z.pos (Qden q)).

(** Round half to even, the rounding of Python's [round] on floats. *)
Definition Qround_half_even (q : Q) : Z :=
  let f := Qfloor q in
  match Qcompare (q - inject_Z f) (1 # 2) with
  | Lt => f
  | Gt => f + 1
  | Eq => if Z.even f then f else f + 1
  end.

(** [int(x)]: raises on infinities and NaN. *)
Definition int (x : float) : option Z := Qtrunc <$> float_to_Q x.

(** [round(x)] with one argument. *)
Definition round (x : float) : option Z := Qround_half_even <$> float_to_Q x.

(** [range(n)] *)
Definition range (n : Z) : list Z := seqZ 0 n.

End Py.

(** ** The layers of [torch.nn] used by the file

    A layer object is its constructor arguments together with its learned
    parameters, of an abstract type [P]. *)

Definition shape := list Z.

Inductive padding :=
  | PadSame
  | Pad (ph pw : Z).

Record Conv2d (P : Type) := mkConv2d {
  cv_in_channels : Z;
  cv_out_channels : Z;
  cv_kernel_size : Z * Z;
  cv_padding : padding;
  cv_bias : bool;
  cv_params : P }.
Arguments mkConv2d {P}.
Arguments cv_in_channels {P}.
Arguments cv_out_channels {P}.
Arguments cv_kernel_size {P}.
Arguments cv_padding {P}.
Arguments cv_bias {P}.
Arguments cv_params {P}.

Record MaxPool2d := mkMaxPool2d {
  mp_kernel_size : Z * Z;
  mp_stride : Z * Z;
  mp_padding : Z * Z }.

(** [stride] is left at its default, the kernel size, and [padding] at 0. *)
Record AvgPool2d := mkAvgPool2d {
  ap_kernel_size : Z * Z }.

(** [bn_training] is the [training] attribute of the module: [True] from
    construction on, until a caller switches the module to evaluation. *)
Record BatchNorm2d (P : Type) := mkBatchNorm2d {
  bn_num_features : Z;
  bn_training : bool;
  bn_params : P }.
Arguments mkBatchNorm2d {P}.
Arguments bn_num_features {P}.
Arguments bn_training {P}.
Arguments bn_params {P}.

Record Linear (P : Type) := mkLinear {
  ln_in_features : Z;
  ln_out_features : Z;
  ln_bias : bool;
  ln_params : P }.
Arguments mkLinear {P}.
Arguments ln_in_features {P}.
Arguments ln_out_features {P}.
Arguments ln_bias {P}.
Arguments ln_params {P}.

(** [nn.Flatten()] with its defaults [start_dim=1], [end_dim=-1]. *)
Record Flatten := mkFlatten { }.

Record LogSoftmax := mkLogSoftmax {
  ls_dim : nat }.

(** The tensor operations behind the layers and behind [torch.cat], [+] and
    [Tensor.permute].  Each may raise. *)
Class Torch (T P : Type) := {
  conv2d : Conv2d P → T → option T;
  max_pool2d : MaxPool2d → T → option T;
  avg_pool2d : AvgPool2d → T → option T;
  batch_norm2d : BatchNorm2d P → T → option T;
  linear : Linear P → T → option T;
  flatten : Flatten → T → option T;
  log_softmax : LogSoftmax → T → option T;
  cat : list T → nat → option T;
  add : T → T → option T;
  permute : T → list nat → option T }.

(** An activation is any [nn.Module]: an object with a state of type [A]
    whose call may change that state. *)
Class Activation (T A : Type) := {
  activation_forward : A → T → A * option T }.

(** ** Shape contracts of the tensor operations

    The shape each operation returns, and the inputs on which it raises, as
    the PyTorch documentation gives them ("Shape:" of [Conv2d], [MaxPool2d],
    [AvgPool2d], [BatchNorm2d], [Linear], [Flatten]; dimension rules of
    [torch.cat], broadcasting and [Tensor.permute]).  Inputs are batched
    4-axis tensors wherever the file calls a 2-d layer; the unbatched 3-axis
    form that the convolution and pooling layers also take is refused here
    at the first layer, and by [BatchNorm2d] in torch.  Values are not
    modelled: of [BatchNorm2d] the model has the check of the input size
    made in training mode, not the running statistics that the layer then
    updates. *)

Module Shape.

(** Output length of one convolved axis, stride and dilation 1:
    [i + total_pad - k + 1], the padded input being at least as long as the
    kernel.  Padding ["same"] adds [k - 1] in total. *)
Definition conv_out (i k : Z) (total_pad : Z) : option Z :=
  if bool_decide (1 ≤ k ∧ 0 ≤ total_pad ∧ k ≤ i + total_pad)
  then Some (i + total_pad - k + 1) else None.

Definition conv2d (c : Conv2d unit) (s : shape) : option shape :=
  match s with
  | [n; ci; h; w] =>
      if bool_decide (ci = cv_in_channels c) then
        let '(kh, kw) := cv_kernel_size c in
        let '(th, tw) := match cv_padding c with
                         | PadSame => (kh - 1, kw - 1)
                         | Pad ph pw => (2 * ph, 2 * pw)
                         end in
        h' ← conv_out h kh th;
        w' ← conv_out w kw tw;
        Some [n; cv_out_channels c; h'; w']
      else None
  | _ => None
  end.

(** Output length of one pooled axis, dilation 1 and [ceil_mode=False]:
    [floor((i + 2 p - k) / s) + 1].  The padding is at most half the kernel
    and an output of length 0 raises. *)
Definition pool_out (i k s p : Z) : option Z :=
  if bool_decide (1 ≤ k ∧ 1 ≤ s ∧ 0 ≤ p ∧ p ≤ k `div` 2) then
    let o := (i + 2 * p - k) `div` s + 1 in
    if bool_decide (1 ≤ o) then Some o else None
  else None.

Definition pool2d (k s p : Z * Z) (x : shape) : option shape :=
  match x with
  | [n; c; h; w] =>
      if bool_decide (c ≠ 0 ∧ h ≠ 0 ∧ w ≠ 0) then
        h' ← pool_out h k.1 s.1 p.1;
        w' ← pool_out w k.2 s.2 p.2;
        Some [n; c; h'; w']
      else None
  | _ => None
  end.

Definition max_pool2d (m : MaxPool2d) : shape → option shape :=
  pool2d (mp_kernel_size m) (mp_stride m) (mp_padding m).

Definition avg_pool2d (m : AvgPool2d) : shape → option shape :=
  pool2d (ap_kernel_size m) (ap_kernel_size m) (0, 0).

(** In training mode the layer needs more than one value per channel: it
    raises when batch × height × width is 1. *)
Definition batch_norm2d (m : BatchNorm2d unit) (s : shape) : option shape :=
  match s with
  | [n; c; h; w] =>
      if bool_decide (c = bn_num_features m) then
        if bn_training m && bool_decide (n * h * w = 1) then None else Some s
      else None
  | _ => None
  end.

Definition linear (m : Linear unit) (s : shape) : option shape :=
  match reverse s with
  | last :: front =>
      if bool_decide (last = ln_in_features m)
      then Some (reverse (ln_out_features m :: front)) else None
  | [] => None
  end.

Definition flatten (_ : Flatten) (s : shape) : option shape :=
  match s with
  | n :: d :: rest => Some [n; foldr Z.mul 1 (d :: rest)]
  | _ => None
  end.

Definition log_softmax (m : LogSoftmax) (s : shape) : option shape :=
  if bool_decide (ls_dim m < length s)%nat then Some s else None.

(** Two shapes joined along axis [d]. *)
Fixpoint cat2 (d : nat) (s1 s2 : shape) : option shape :=
  match d, s1, s2 with
  | O, a :: r1, b :: r2 =>
      if bool_decide (r1 = r2) then Some (a + b :: r1) else None
  | S d', a :: r1, b :: r2 =>
      if bool_decide (a = b) then (a ::.) <$> cat2 d' r1 r2 else None
  | _, _, _ => None
  end.

Definition cat (ts : list shape) (d : nat) : option shape :=
  match ts with
  | [] => None
  | s :: rest =>
      if bool_decide (d < length s)%nat
      then foldl (λ acc t, acc ≫= λ a, cat2 d a t) (Some s) rest
      else None
  end.

(** Broadcasting, on shapes written last axis first. *)
Fixpoint broadcast_rev (s1 s2 : shape) : option shape :=
  match s1, s2 with
  | [], s | s, [] => Some s
  | a :: r1, b :: r2 =>
      if bool_decide (a = b) then (a ::.) <$> broadcast_rev r1 r2
      else if bool_decide (a = 1) then (b ::.) <$> broadcast_rev r1 r2
      else if bool_decide (b = 1) then (a ::.) <$> broadcast_rev r1 r2
      else None
  end.

Definition add (s1 s2 : shape) : option shape :=
  reverse <$> broadcast_rev (reverse s1) (reverse s2).

Definition permute (s : shape) (dims : list nat) : option shape :=
  if bool_decide (length dims = length s ∧ NoDup dims
                  ∧ Forall (λ i, i < length s)%nat dims)
  then Some ((λ i, nth i s 0) <$> dims) else None.

End Shape.

#[export] Instance shape_torch : Torch shape unit := {
  conv2d := Shape.conv2d;
  max_pool2d := Shape.max_pool2d;
  avg_pool2d := Shape.avg_pool2d;
  batch_norm2d := Shape.batch_norm2d;
  linear := Shape.linear;
  flatten := Shape.flatten;
  log_softmax := Shape.log_softmax;
  cat := Shape.cat;
  add := Shape.add;
  permute := Shape.permute }.

(** An elementwise activation keeps the shape and has no state. *)
#[export] Instance shape_activation : Activation shape unit := {
  activation_forward := λ a s, (a, Some s) }.

(** ** Calls that raise and that may touch the activation objects

    Objects live in a heap and are held by reference, as in Python: the
    [activation] argument of the constructors is the address of one module
    object.  A computation takes the heap and either raises ([None]) or
    returns its value with the heap it leaves. *)

Definition loc := positive.

Section Monad.
Context {T A : Type} `{!Activation T A}.

Definition M (X : Type) : Type := gmap loc A → option (X * gmap loc A).

Definition ret {X} (x : X) : M X := λ h, Some (x, h).

Definition bind {X Y} (m : M X) (k : X → M Y) : M Y :=
  λ h, match m h with
       | Some (x, h') => k x h'
       | None => None
       end.

(** A pure tensor operation: its exception propagates. *)
Definition lift {X} (o : option X) : M X := λ h, (., h) <$> o.

(** [module(x)] for the module object at address [l]. *)
Definition call (l : loc) (x : T) : M T :=
  λ h, match h !! l with
       | Some a =>
           let '(a', y) := activation_forward a x in
           (., <[l:=a']> h) <$> y
       | None => None
       end.

(** [for x in xs: s = body(x, s)] *)
Fixpoint for_in {X S} (xs : list X) (body : X → S → M S) (s : S) : M S :=
  match xs with
  | [] => ret s
  | x :: xs' => bind (body x s) (for_in xs' body)
  end.
End Monad.
Arguments M : clear implicits.

Notation "'let*' x ':=' m 'in' k" := (bind m (λ x, k))
  (at level 10, x name, m at level 100, k at level 200, only parsing).

(** ** [_InceptionModuleMI] *)

Module _InceptionModuleMI.
Section Def.
Context {T P A : Type} `{!Torch T P, !Activation T A}.

Record t := mk {
  in_channels : Z;
  n_filters : Z;
  n_convs : Z;
  kernel_unit_s : float;
  sfreq : float;
  bottleneck : Conv2d P;
  pooling : MaxPool2d;
  pooling_conv : Conv2d P;
  conv_list : list (Conv2d P);
  bn : BatchNorm2d P;
  activation : loc }.

(** [θ] gives the initial parameters of the layers, which torch draws at
    random: 0 the bottleneck, 1 the pooling projection, 2 the batch
    normalisation, [3 + k] the [k]-th convolution.  The layer constructors
    of torch raise on a negative size; only the conversion [int] is a
    source of failure here, so what is proved of a module is proved for
    sizes on which torch builds its layers. *)
Definition __init__ (in_channels n_filters n_convs : Z)
    (kernel_unit_s sfreq : float) (activation : loc) (θ : nat → P)
  : option t :=
  kernel_unit ← Py.int (kernel_unit_s * sfreq)%float;
  Some {|
    in_channels := in_channels;
    n_filters := n_filters;
    n_convs := n_convs;
    kernel_unit_s := kernel_unit_s;
    sfreq := sfreq;
    bottleneck := mkConv2d in_channels n_filters (1, 1) (Pad 0 0) true (θ 0%nat);
    pooling := mkMaxPool2d (1, kernel_unit) (1, 1) (0, kernel_unit `div` 2);
    pooling_conv := mkConv2d in_channels n_filters (1, 1) (Pad 0 0) true (θ 1%nat);
    conv_list :=
      (λ n_units, mkConv2d n_filters n_filters
                    (1, (n_units * 2 + 1) * kernel_unit) PadSame true
                    (θ (3 + Z.to_nat n_units)%nat))
      <$> Py.range n_convs;
    bn := mkBatchNorm2d (n_filters * (n_convs + 1)) true (θ 2%nat);
    activation := activation |}.

Definition forward (self : t) (X : T) : M A T :=
  let* X1 := lift (conv2d (bottleneck self) X) in
  let* X1 := lift (mapM (λ conv, conv2d conv X1) (conv_list self)) in
  let* X2 := lift (max_pool2d (pooling self) X) in
  let* X2 := lift (conv2d (pooling_conv self) X2) in
  let* out := lift (cat (X1 ++ [X2]) 1) in
  let* out := lift (batch_norm2d (bn self) out) in
  call (activation self) out.
End Def.
Arguments t : clear implicits.
End _InceptionModuleMI.

(** ** [_ResidualModuleMI] *)

Module _ResidualModuleMI.
Section Def.
Context {T P A : Type} `{!Torch T P, !Activation T A}.

Record t := mk {
  in_channels : Z;
  n_filters : Z;
  activation : loc;
  bn : BatchNorm2d P;
  conv : Conv2d P }.

(** [θ 0] initialises the batch normalisation, [θ 1] the convolution. *)
Definition __init__ (in_channels n_filters : Z) (activation : loc)
    (θ : nat → P) : t :=
  {| in_channels := in_channels;
     n_filters := n_filters;
     activation := activation;
     bn := mkBatchNorm2d n_filters true (θ 0%nat);
     conv := mkConv2d in_channels n_filters (1, 1) (Pad 0 0) true (θ 1%nat) |}.

Definition forward (self : t) (X : T) : M A T :=
  let* out := lift (conv2d (conv self) X) in
  let* out := lift (batch_norm2d (bn self) out) in
  call (activation self) out.
End Def.
Arguments t : clear implicits.
End _ResidualModuleMI.

(** ** The helpers of [braindecode.models.modules] *)

(** Modelled from the spec: the class [Expression] of
    [braindecode.models.modules], which this file imports and does not
    define.  §4.2 describes the module [Expression(_transpose_to_b_c_1_t)]
    as pure and stateless and as returning what the wrapped function returns:
    calling the module applies the function. *)
Definition Expression {T : Type} (expression_fn : T → option T) : T → option T :=
  expression_fn.

(** Modelled from the spec: the Dimension Normalizer, class [Ensure4d] of
    [braindecode.models.modules], which this file imports and does not
    define.  §4.1: given 3 axes (batch, channel, time) it produces
    (batch, channel, 1, time); given 4 axes it passes the input through;
    any other rank fails. *)
Definition Ensure4d_spec (x : shape) : option shape :=
  match x with
  | [b; c; t] => Some [b; c; 1; t]
  | [_; _; _; _] => Some x
  | _ => None
  end.

(** [Tensor.unsqueeze(dim)] on shapes, for [0 ≤ dim ≤ rank]. *)
Definition unsqueeze (dim : nat) (x : shape) : option shape :=
  if bool_decide (dim ≤ length x)%nat
  then Some (take dim x ++ 1 :: drop dim x) else None.

(** ** [EEGInceptionMI] *)

Definition _transpose_to_b_c_1_t {T P : Type} `{!Torch T P} (x : T) : option T :=
  permute x [0; 1; 3; 2]%nat.

Module EEGInceptionMI.
Section Def.
Context {T P A : Type} `{!Torch T P, !Activation T A}.

Record t := mk {
  in_channels : Z;
  n_classes : Z;
  input_window_s : float;
  input_window_samples : Z;
  sfreq : float;
  n_convs : Z;
  n_filters : Z;
  kernel_unit_s : float;
  activation : loc;
  ensuredims : T → option T;
  dimshuffle : T → option T;
  initial_inception_module : _InceptionModuleMI.t P;
  intermediate_inception_modules_1 : list (_InceptionModuleMI.t P);
  residual_block_1 : _ResidualModuleMI.t P;
  intermediate_inception_modules_2 : list (_InceptionModuleMI.t P);
  residual_block_2 : _ResidualModuleMI.t P;
  ave_pooling : AvgPool2d;
  flat : Flatten;
  fc : Linear P;
  softmax : LogSoftmax }.

(** [Ensure4d] stands for the imported class of that name, given by what
    calling an instance does.  [θ i] initialises the [i]-th submodule in
    the order of construction: the initial Inception module, the two of
    stage 1, residual block 1, the three of stage 2, residual block 2, the
    linear layer. *)
Definition __init__ (Ensure4d : T → option T)
    (in_channels n_classes : Z) (input_window_s sfreq : float)
    (n_convs n_filters : Z) (kernel_unit_s : float) (activation : loc)
    (θ : nat → nat → P) : option t :=
  input_window_samples ← Py.int (input_window_s * sfreq)%float;
  initial_inception_module ←
    _InceptionModuleMI.__init__ in_channels n_filters n_convs
      kernel_unit_s sfreq activation (θ 0%nat);
  let intermediate_in_channels := (n_convs + 1) * n_filters in
  intermediate_inception_modules_1 ←
    mapM (λ i, _InceptionModuleMI.__init__ intermediate_in_channels
                 n_filters n_convs kernel_unit_s sfreq activation
                 (θ (1 + Z.to_nat i)%nat))
         (Py.range 2);
  let residual_block_1 :=
    _ResidualModuleMI.__init__ in_channels intermediate_in_channels
      activation (θ 3%nat) in
  intermediate_inception_modules_2 ←
    mapM (λ i, _InceptionModuleMI.__init__ intermediate_in_channels
                 n_filters n_convs kernel_unit_s sfreq activation
                 (θ (4 + Z.to_nat i)%nat))
         (Py.range 3);
  let residual_block_2 :=
    _ResidualModuleMI.__init__ intermediate_in_channels
      intermediate_in_channels activation (θ 7%nat) in
  Some {|
    in_channels := in_channels;
    n_classes := n_classes;
    input_window_s := input_window_s;
    input_window_samples := input_window_samples;
    sfreq := sfreq;
    n_convs := n_convs;
    n_filters := n_filters;
    kernel_unit_s := kernel_unit_s;
    activation := activation;
    ensuredims := Ensure4d;
    dimshuffle := Expression _transpose_to_b_c_1_t;
    initial_inception_module := initial_inception_module;
    intermediate_inception_modules_1 := intermediate_inception_modules_1;
    residual_block_1 := residual_block_1;
    intermediate_inception_modules_2 := intermediate_inception_modules_2;
    residual_block_2 := residual_block_2;
    ave_pooling := mkAvgPool2d (1, input_window_samples);
    flat := mkFlatten;
    fc := mkLinear intermediate_in_channels n_classes true (θ 8%nat 0%nat);
    softmax := mkLogSoftmax 1 |}.

Definition forward (self : t) (X : T) : M A T :=
  let* X := lift (ensuredims self X) in
  let* X := lift (dimshuffle self X) in
  let* res1 := _ResidualModuleMI.forward (residual_block_1 self) X in
  let* out := _InceptionModuleMI.forward (initial_inception_module self) X in
  let* out := for_in (intermediate_inception_modules_1 self)
                (λ layer out, _InceptionModuleMI.forward layer out) out in
  let* out := lift (add out res1) in
  let* res2 := _ResidualModuleMI.forward (residual_block_2 self) out in
  let* out := for_in (intermediate_inception_modules_2 self)
                (λ layer out, _InceptionModuleMI.forward layer out) out in
  let* out := lift (add res2 out) in
  let* out := lift (avg_pool2d (ave_pooling self) out) in
  let* out := lift (flatten (flat self) out) in
  let* out := lift (linear (fc self) out) in
  lift (log_softmax (softmax self) out).
End Def.
Arguments t : clear implicits.
End EEGInceptionMI.

(** ** [forward] in two parts

    The body of [EEGInceptionMI.forward] up to the second residual sum, and
    the four layers that follow it. *)

Section Parts.
Context {T P A : Type} `{!Torch T P, !Activation T A}.
Import EEGInceptionMI.

Definition features (self : EEGInceptionMI.t T P) (X : T) : M A T :=
  let* X := lift (ensuredims self X) in
  let* X := lift (dimshuffle self X) in
  let* res1 := _ResidualModuleMI.forward (residual_block_1 self) X in
  let* out := _InceptionModuleMI.forward (initial_inception_module self) X in
  let* out := for_in (intermediate_inception_modules_1 self)
                (λ layer out, _InceptionModuleMI.forward layer out) out in
  let* out := lift (add out res1) in
  let* res2 := _ResidualModuleMI.forward (residual_block_2 self) out in
  let* out := for_in (intermediate_inception_modules_2 self)
                (λ layer out, _InceptionModuleMI.forward layer out) out in
  lift (add res2 out).

Definition classify (self : EEGInceptionMI.t T P) (out : T) : option T :=
  out ← avg_pool2d (ave_pooling self) out;
  out ← flatten (flat self) out;
  out ← linear (fc self) out;
  log_softmax (softmax self) out.
End Parts.

(** ** Configurations *)

(** The default [kernel_unit_s=0.1]: the binary64 number nearest to 0.1. *)
Definition kernel_unit_s_default : float := 0x1.999999999999ap-4%float.

(** The reference configuration, for BCI IV 2a: 22 channels, 4 classes,
    windows of 4.5 s at 250 Hz, and the defaults for the rest. *)
Definition reference (Ensure4d : shape → option shape) (activation : loc)
  : option (EEGInceptionMI.t shape unit) :=
  EEGInceptionMI.__init__ Ensure4d 22 4 4.5%float 250%float 5 48
    kernel_unit_s_default activation (λ _ _, tt).

(** The reference configuration for recordings sampled at 200 Hz: windows
    of 900 samples and a kernel unit of 20. *)
Definition reference_at_200_Hz (Ensure4d : shape → option shape)
    (activation : loc) : option (EEGInceptionMI.t shape unit) :=
  EEGInceptionMI.__init__ Ensure4d 22 4 4.5%float 200%float 5 48
    kernel_unit_s_default activation (λ _ _, tt).

(** A normaliser that appends singleton axes up to rank 4.  It sends
    (batch, channel, time) to (batch, channel, time, 1), the layout that
    [_transpose_to_b_c_1_t] turns into (batch, channel, 1, time). *)
Definition append_singleton_axes (x : shape) : option shape :=
  Some (x ++ replicate (4 - length x) 1).

(** ** Truncated sample counts

    What [int(x * sfreq)] yields for the two durations of a configuration:
    the integer next to the exact product on the side of zero, which is the
    nearest integer only if the fractional part allows it. *)
Definition truncation_of (x : float) (z : Z) : Prop :=
  ∃ q : Q,
    Py.float_to_Q x = Some q
    ∧ Py.int x = Some z
    ∧ ((0 <= q → inject_Z z <= q < inject_Z z + 1)
       ∧ (q <= 0 → inject_Z z - 1 < q <= inject_Z z))%Q
    ∧ ((0 <= q)%Q →
       Py.round x = Some z
       ↔ (q - inject_Z z < 1 # 2)%Q
         ∨ ((q - inject_Z z == 1 # 2)%Q ∧ Z.even z = true)).

(** 4.3, as a binary64 number. *)
Definition window_4_3_s : float := 0x1.1333333333333p+2%float.

(** ** The data flow of §4.5, step by step

    The eight steps of the forward algorithm as the specification lists
    them, over the components they name. *)
Section DataFlow.
Context {T P A : Type} `{!Torch T P, !Activation T A}.

Definition dataflow_spec
    (normalize_dims permute_axes : T → option T)
    (ResidualModule1 InitialInception stage1_first stage1_second
     ResidualModule2 stage2_first stage2_second stage2_third : T → M A T)
    (average_pool flatten_ linear_ log_softmax_ : T → option T)
    (X : T) : M A T :=
  (* 1 *) let* X := lift (normalize_dims X) in
          let* X := lift (permute_axes X) in
  (* 2 *) let* res1 := ResidualModule1 X in
  (* 3 *) let* out := InitialInception X in
          let* out := stage1_first out in
          let* out := stage1_second out in
  (* 4 *) let* out := lift (add out res1) in
  (* 5 *) let* res2 := ResidualModule2 out in
  (* 6 *) let* out := stage2_first out in
          let* out := stage2_second out in
          let* out := stage2_third out in
  (* 7 *) let* out := lift (add res2 out) in
  (* 8 *) let* out := lift (average_pool out) in
          let* out := lift (flatten_ out) in
          let* out := lift (linear_ out) in
          lift (log_softmax_ out).
End DataFlow.

(** ** One activation object per use site

    The variant of §9: every submodule holds an activation object of its
    own, at address [ℓ i] for the [i]-th submodule in the order of
    construction. *)
Section Independent.
Context {T P : Type}.

Definition inception_with_activation (l : loc) (m : _InceptionModuleMI.t P)
  : _InceptionModuleMI.t P :=
  {| _InceptionModuleMI.in_channels := _InceptionModuleMI.in_channels m;
     _InceptionModuleMI.n_filters := _InceptionModuleMI.n_filters m;
     _InceptionModuleMI.n_convs := _InceptionModuleMI.n_convs m;
     _InceptionModuleMI.kernel_unit_s := _InceptionModuleMI.kernel_unit_s m;
     _InceptionModuleMI.sfreq := _InceptionModuleMI.sfreq m;
     _InceptionModuleMI.bottleneck := _InceptionModuleMI.bottleneck m;
     _InceptionModuleMI.pooling := _InceptionModuleMI.pooling m;
     _InceptionModuleMI.pooling_conv := _InceptionModuleMI.pooling_conv m;
     _InceptionModuleMI.conv_list := _InceptionModuleMI.conv_list m;
     _InceptionModuleMI.bn := _InceptionModuleMI.bn m;
     _InceptionModuleMI.activation := l |}.

Definition residual_with_activation (l : loc) (m : _ResidualModuleMI.t P)
  : _ResidualModuleMI.t P :=
  {| _ResidualModuleMI.in_channels := _ResidualModuleMI.in_channels m;
     _ResidualModuleMI.n_filters := _ResidualModuleMI.n_filters m;
     _ResidualModuleMI.activation := l;
     _ResidualModuleMI.bn := _ResidualModuleMI.bn m;
     _ResidualModuleMI.conv := _ResidualModuleMI.conv m |}.

Definition independent_activations (ℓ : nat → loc)
    (net : EEGInceptionMI.t T P) : EEGInceptionMI.t T P :=
  let '(EEGInceptionMI.mk in_channels n_classes input_window_s
          input_window_samples sfreq n_convs n_filters kernel_unit_s
          activation ensuredims dimshuffle initial modules_1 residual_1
          modules_2 residual_2 ave_pooling flat fc softmax) := net in
  EEGInceptionMI.mk in_channels n_classes input_window_s
    input_window_samples sfreq n_convs n_filters kernel_unit_s
    activation ensuredims dimshuffle
    (inception_with_activation (ℓ 0%nat) initial)
    (imap (λ i, inception_with_activation (ℓ (1 + i)%nat)) modules_1)
    (residual_with_activation (ℓ 3%nat) residual_1)
    (imap (λ i, inception_with_activation (ℓ (4 + i)%nat)) modules_2)
    (residual_with_activation (ℓ 7%nat) residual_2)
    ave_pooling flat fc softmax.
End Independent.

(** An activation class is stateless when calling an instance leaves the
    instance as it was. *)
Definition stateless_activation (T A : Type) `{!Activation T A} : Prop :=
  ∀ (a : A) (x : T), (activation_forward a x).1 = a.

(** Two computations, each on its own heap, agree when both raise or both
    return the same value and leave their heaps untouched. *)
Definition agree {A X : Type} (m m' : M A X) (h h' : gmap loc A) : Prop :=
  match m h, m' h' with
  | Some (y, h1), Some (y', h1') => y = y' ∧ h1 = h ∧ h1' = h'
  | None, None => True
  | _, _ => False
  end.

(** The addresses of the eight independent activation objects of the
    examples, 2 to 9, and a heap holding one object at each. *)
Definition fresh_activation (i : nat) : loc := Pos.of_nat (2 + i).

Definition independent_heap : gmap loc unit :=
  list_to_map ((λ i, (fresh_activation i, tt)) <$> seq 0 8).

(** ** Effects of a computation on the heap *)

(** Without an object at [l], [m] raises or returns with the heap as it
    found it. *)
Definition inert_without {A X : Type} (l : loc) (m : M A X) : Prop :=
  ∀ h, h !! l = None → m h = None ∨ ∃ y, m h = Some (y, h).

(** Without an object at [l], [m] raises. *)
Definition raises_without {A X : Type} (l : loc) (m : M A X) : Prop :=
  ∀ h, h !! l = None → m h = None.

(** An activation module that counts its calls: its state is the number of
    calls made so far.  Like every elementwise activation it keeps the
    shape. *)
Definition counting_activation : Activation shape nat :=
  {| activation_forward := λ calls s, (S calls, Some s) |}.

(** With the counting activation: a returning [m] has called the object at
    [l] exactly [j] times and has changed nothing else. *)
Definition calls_times {X : Type} (j : nat) (l : loc) (m : M nat X) : Prop :=
  ∀ h y h' k, m h = Some (y, h') → h !! l = Some k →
              h' = <[l := (k + j)%nat]> h.

(** ** Proof steps *)

Ltac decide_true :=
  repeat match goal with
  | |- context [bool_decide ?Q] =>
      rewrite (bool_decide_eq_true_2 Q) by (first [done | lia | simpl; lia])
  end.

Ltac shape_eq := repeat (f_equal; try lia).

Ltac step lem :=
  rewrite lem by (first [done | lia | nia]);
  cbn [fmap option_fmap option_map].

(** * Properties *)

(** ** Running a computation *)

Section MonadFacts.
Context {A : Type}.

Lemma bind_Some {X Y} (m : M A X) (k : X → M A Y) h y h' :
  bind m k h = Some (y, h') ↔ ∃ x h1, m h = Some (x, h1) ∧ k x h1 = Some (y, h').
Proof.
  unfold bind. split.
  - destruct (m h) as [[x h1]|]; [eauto | discriminate].
  - intros (x & h1 & -> & Hk). exact Hk.
Qed.

Lemma bind_run {X Y} (m : M A X) (k : X → M A Y) h x h1 :
  m h = Some (x, h1) → bind m k h = k x h1.
Proof. unfold bind. by intros ->. Qed.

Lemma bind_None {X Y} (m : M A X) (k : X → M A Y) h :
  m h = None → bind m k h = None.
Proof. unfold bind. by intros ->. Qed.

Lemma lift_Some {X} (o : option X) (h : gmap loc A) y h' :
  lift o h = Some (y, h') ↔ o = Some y ∧ h' = h.
Proof.
  unfold lift. destruct o; simpl; split.
  - by intros [= <- <-].
  - by intros [[= <-] ->].
  - discriminate.
  - by intros [? _].
Qed.

Lemma lift_run {X} (o : option X) (h : gmap loc A) x : o = Some x → lift o h = Some (x, h).
Proof. by intros ->. Qed.

Lemma lift_None {X} (h : gmap loc A) : lift (@None X) h = None.
Proof. done. Qed.

Lemma bind_assoc {X Y Z} (m : M A X) (k : X → M A Y) (k' : Y → M A Z) h :
  bind (bind m k) k' h = bind m (λ x, bind (k x) k') h.
Proof. unfold bind. by destruct (m h) as [[x h1]|]. Qed.

Lemma bind_ret_l {X Y} (x : X) (k : X → M A Y) h : bind (ret x) k h = k x h.
Proof. done. Qed.

Lemma bind_ret_r {X} (m : M A X) h : bind m ret h = m h.
Proof. unfold bind, ret. by destruct (m h) as [[x h1]|]. Qed.

Lemma bind_ext {X Y} (m : M A X) (k k' : X → M A Y) h :
  (∀ x h1, k x h1 = k' x h1) → bind m k h = bind m k' h.
Proof. intros Hk. unfold bind. by destruct (m h) as [[x h1]|]. Qed.
End MonadFacts.

(** On shapes the activation object is never changed by a call. *)
Lemma call_shape (l : loc) (s : shape) (h : gmap loc unit) :
  h !! l = Some tt → call l s h = Some (s, h).
Proof.
  intros Hl. unfold call. rewrite Hl. simpl. by rewrite insert_id.
Qed.

Lemma call_shape_Some (l : loc) (s out : shape) (h h' : gmap loc unit) :
  call l s h = Some (out, h') → out = s ∧ h' = h.
Proof.
  unfold call. destruct (h !! l) as [[]|] eqn:Hl; [|discriminate].
  simpl. intros [= <- <-]. by rewrite insert_id.
Qed.

(** ** Shape arithmetic of the layers *)

Section ShapeFacts.
Implicit Types (n c h w k : Z) (s : shape).

Lemma conv2d_pointwise ci co bias n h w :
  1 ≤ h → 1 ≤ w →
  Shape.conv2d (mkConv2d ci co (1, 1) (Pad 0 0) bias tt) [n; ci; h; w]
  = Some [n; co; h; w].
Proof.
  intros Hh Hw. unfold Shape.conv2d, Shape.conv_out. simpl.
  decide_true. simpl. shape_eq.
Qed.

Lemma conv2d_same ci co k bias n h w :
  1 ≤ k → 1 ≤ h → 1 ≤ w →
  Shape.conv2d (mkConv2d ci co (1, k) PadSame bias tt) [n; ci; h; w]
  = Some [n; co; h; w].
Proof.
  intros Hk Hh Hw. unfold Shape.conv2d, Shape.conv_out. simpl.
  decide_true. simpl. shape_eq.
Qed.

(** A convolution never changes the batch size and always yields its
    [out_channels]. *)
Lemma conv2d_channels (cv : Conv2d unit) s out :
  Shape.conv2d cv s = Some out →
  ∃ n h w, out = [n; cv_out_channels cv; h; w].
Proof.
  unfold Shape.conv2d.
  destruct s as [|n [|ci [|h [|w [|]]]]]; try discriminate.
  case_bool_decide; [|discriminate].
  destruct (cv_kernel_size cv) as [kh kw].
  destruct (match cv_padding cv with PadSame => _ | Pad _ _ => _ end) as [th tw].
  destruct (Shape.conv_out h kh th); [|discriminate].
  destruct (Shape.conv_out w kw tw); [|discriminate].
  simpl. intros [= <-]. eauto.
Qed.

(** The pooling of the Inception module: the time axis keeps its length
    for an odd kernel and grows by one sample for an even one. *)
Lemma max_pool2d_unit_stride ku n c h w :
  1 ≤ ku → c ≠ 0 → 1 ≤ h → 1 ≤ w →
  Shape.max_pool2d (mkMaxPool2d (1, ku) (1, 1) (0, ku `div` 2)) [n; c; h; w]
  = Some [n; c; h; if Z.odd ku then w else w + 1].
Proof.
  intros Hku Hc Hh Hw.
  unfold Shape.max_pool2d, Shape.pool2d, Shape.pool_out. simpl.
  rewrite !Z.div_1_r.
  assert (0 ≤ ku `div` 2) by (apply Z.div_pos; lia).
  pose proof (Z.div_mod ku 2 ltac:(lia)) as Hdm.
  pose proof (Zmod_odd ku) as Hodd.
  destruct (Z.odd ku); decide_true; simpl; shape_eq.
Qed.

Lemma product_not_one n h w : 1 ≤ h → 2 ≤ w → n * h * w ≠ 1.
Proof.
  intros Hh Hw Heq. destruct (Z.le_gt_cases n 0).
  - assert (n * h ≤ 0) by nia. nia.
  - assert (1 ≤ n * h) by nia. nia.
Qed.

Lemma batch_norm2d_Some (m : BatchNorm2d unit) s out :
  Shape.batch_norm2d m s = Some out →
  out = s ∧ ∃ n h w, s = [n; bn_num_features m; h; w]
                     ∧ (bn_training m = true → n * h * w ≠ 1).
Proof.
  unfold Shape.batch_norm2d.
  destruct s as [|n [|c [|h [|w [|]]]]]; try discriminate.
  case_bool_decide as Hc; [|discriminate]. subst c.
  destruct (bn_training m); simpl.
  - case_bool_decide as Hone; [discriminate|].
    intros [= <-]. split; [done|]. by exists n, h, w.
  - intros [= <-]. split; [done|]. by exists n, h, w.
Qed.

Lemma batch_norm2d_run p n c h w :
  n * h * w ≠ 1 →
  Shape.batch_norm2d (mkBatchNorm2d c true p) [n; c; h; w] = Some [n; c; h; w].
Proof.
  intros Hone. unfold Shape.batch_norm2d. simpl.
  rewrite bool_decide_eq_true_2 by done.
  by rewrite bool_decide_eq_false_2 by done.
Qed.

Lemma batch_norm2d_single p n c h w :
  n * h * w = 1 →
  Shape.batch_norm2d (mkBatchNorm2d c true p) [n; c; h; w] = None.
Proof.
  intros Hone. unfold Shape.batch_norm2d. simpl.
  rewrite bool_decide_eq_true_2 by done.
  by rewrite bool_decide_eq_true_2 by done.
Qed.

Lemma mapM_const {X Y} (f : X → option Y) (l : list X) (y : Y) :
  Forall (λ x, f x = Some y) l → mapM f l = Some (replicate (length l) y).
Proof.
  induction 1 as [|x l Hx _ IH]; [done|].
  simpl. rewrite Hx. simpl. by rewrite IH.
Qed.

Lemma cat_fold_replicate (j : nat) n c0 c c2 h w :
  foldl (λ acc t, acc ≫= λ a, Shape.cat2 1 a t) (Some [n; c0; h; w])
        (replicate j [n; c; h; w] ++ [[n; c2; h; w]])
  = Some [n; c0 + Z.of_nat j * c + c2; h; w].
Proof.
  revert c0. induction j as [|j IH]; intros c0.
  - simpl. decide_true. simpl. shape_eq.
  - simpl replicate. simpl app. simpl foldl.
    decide_true. simpl fmap.
    rewrite IH. shape_eq.
Qed.

(** Concatenating [j] tensors of [c] channels and one of [c2] channels. *)
Lemma cat_replicate (j : nat) n c c2 h w :
  Shape.cat (replicate j [n; c; h; w] ++ [[n; c2; h; w]]) 1
  = Some [n; Z.of_nat j * c + c2; h; w].
Proof.
  destruct j as [|j].
  - simpl. shape_eq.
  - unfold Shape.cat. cbn [replicate app length].
    rewrite bool_decide_eq_true_2 by lia.
    rewrite cat_fold_replicate. shape_eq.
Qed.

Lemma cat_fold_None (l : list shape) :
  foldl (λ acc t, acc ≫= λ a, Shape.cat2 1 a t) None l = None.
Proof. by induction l. Qed.

(** One branch of another time length makes the concatenation raise. *)
Lemma cat_replicate_mismatch (j : nat) n c c2 h w w' :
  (0 < j)%nat → w ≠ w' →
  Shape.cat (replicate j [n; c; h; w] ++ [[n; c2; h; w']]) 1 = None.
Proof.
  intros Hj Hw. destruct j as [|j]; [lia|].
  unfold Shape.cat. cbn [replicate app length].
  rewrite bool_decide_eq_true_2 by lia.
  clear Hj. generalize c at 1.
  induction j as [|j IH]; intros c0.
  - cbn [replicate app foldl mbind option_bind Shape.cat2].
    decide_true.
    rewrite bool_decide_eq_false_2 by (intros [=]; contradiction). done.
  - cbn [replicate app foldl mbind option_bind Shape.cat2].
    decide_true. cbn [fmap option_fmap option_map]. apply IH.
Qed.
End ShapeFacts.

(** ** The Inception module on shapes *)

Section InceptionShape.
Import _InceptionModuleMI.

Variables (c f n : Z) (ks sf : float) (act : loc) (θ : nat → unit).
Variable m : _InceptionModuleMI.t unit.
Variable ku : Z.
Hypothesis Hinit : __init__ c f n ks sf act θ = Some m.
Hypothesis Hku : Py.int (ks * sf)%float = Some ku.

Lemma inception_fields :
  bottleneck m = mkConv2d c f (1, 1) (Pad 0 0) true tt
  ∧ pooling m = mkMaxPool2d (1, ku) (1, 1) (0, ku `div` 2)
  ∧ pooling_conv m = mkConv2d c f (1, 1) (Pad 0 0) true tt
  ∧ conv_list m =
      ((λ n_units, mkConv2d f f (1, (n_units * 2 + 1) * ku) PadSame true tt)
       <$> Py.range n)
  ∧ bn m = mkBatchNorm2d (f * (n + 1)) true tt
  ∧ activation m = act.
Proof.
  revert Hinit. unfold __init__. rewrite Hku. simpl. intros [= <-]. simpl.
  repeat split; try (by repeat (f_equal; try by destruct (θ _))).
  apply list_fmap_ext. intros _ k _. f_equal. by destruct (θ _).
Qed.

(** Every parallel convolution keeps the shape of the bottleneck output. *)
Lemma inception_convs b hh w :
  1 ≤ ku → 1 ≤ hh → 1 ≤ w →
  mapM (λ conv, Shape.conv2d conv [b; f; hh; w]) (conv_list m)
  = Some (replicate (Z.to_nat n) [b; f; hh; w]).
Proof.
  intros Hk Hh Hw.
  destruct inception_fields as (_ & _ & _ & -> & _).
  rewrite <- (length_seqZ 0 n).
  rewrite <- (length_fmap (λ n_units, mkConv2d f f (1, (n_units * 2 + 1) * ku)
                                     PadSame true tt) (seqZ 0 n)).
  apply mapM_const. apply Forall_fmap. unfold Py.range.
  apply Forall_seqZ. intros k Hk'. unfold compose.
  apply conv2d_same; nia.
Qed.

(** The shape computed by [forward] on a 4-axis input, for a positive
    kernel unit.  The module is in training mode. *)
Lemma inception_forward_shape b hh w (h : gmap loc unit) :
  1 ≤ ku → 0 ≤ n → c ≠ 0 → 1 ≤ hh → 1 ≤ w → h !! act = Some tt →
  forward m [b; c; hh; w] h
  = if Z.odd ku then
      if bool_decide (b * hh * w = 1) then None
      else Some ([b; (n + 1) * f; hh; w], h)
    else if bool_decide (n = 0) then Some ([b; f; hh; w + 1], h)
    else None.
Proof.
  intros Hk Hn Hc Hh Hw Hact.
  destruct inception_fields as (Hb & Hp & Hpc & _ & Hbn & Ha).
  unfold forward. rewrite Hb, Hp, Hpc, Hbn, Ha.
  unfold bind, lift. cbn [conv2d max_pool2d cat batch_norm2d shape_torch].
  rewrite conv2d_pointwise by done. cbn [fmap option_fmap option_map].
  rewrite inception_convs by done. cbn [fmap option_fmap option_map].
  rewrite max_pool2d_unit_stride by done. cbn [fmap option_fmap option_map].
  destruct (Z.odd ku).
  - rewrite conv2d_pointwise by done. cbn [fmap option_fmap option_map].
    rewrite cat_replicate. cbn [fmap option_fmap option_map].
    rewrite Z2Nat.id by done.
    replace (n * f + f) with (f * (n + 1)) by ring.
    case_bool_decide as Hone.
    + by rewrite batch_norm2d_single.
    + rewrite batch_norm2d_run by done. cbn [fmap option_fmap option_map].
      rewrite call_shape by done. shape_eq.
  - rewrite conv2d_pointwise by lia. cbn [fmap option_fmap option_map].
    case_bool_decide as Hn0.
    + subst n. change (Z.to_nat 0) with 0%nat. unfold Shape.cat.
      cbn [replicate app length]. rewrite bool_decide_eq_true_2 by lia.
      cbn [foldl fmap option_fmap option_map].
      replace (f * (0 + 1)) with f by lia.
      rewrite batch_norm2d_run by (apply product_not_one; lia).
      cbn [fmap option_fmap option_map].
      by rewrite call_shape.
    + rewrite cat_replicate_mismatch by lia. done.
Qed.
End InceptionShape.

Lemma mapM_conv2d_channels (l : list (Conv2d unit)) (X0 : shape)
    (X1 : list shape) (f : Z) :
  Forall (λ cv, cv_out_channels cv = f) l →
  mapM (λ conv, Shape.conv2d conv X0) l = Some X1 →
  Forall (λ x, x !! 1%nat = Some f) X1.
Proof.
  intros Hl HX1. apply mapM_Some in HX1.
  induction HX1 as [|cv y l' ys Hy _ IH]; [constructor|].
  apply Forall_cons in Hl as [Hcv Hl]. constructor; [|by apply IH].
  apply conv2d_channels in Hy as (? & ? & ? & ->). by rewrite Hcv.
Qed.

(** Whatever the configuration and the input, an output of [forward] went
    through the concatenation of the [n_convs] convolution outputs and the
    pooled projection, each of [n_filters] channels, and through the batch
    normalisation over [n_filters * (n_convs + 1)] channels. *)
Lemma inception_forward_inv c f n ks sf act θ (m : _InceptionModuleMI.t unit)
    (X out : shape) (h h' : gmap loc unit) :
  _InceptionModuleMI.__init__ c f n ks sf act θ = Some m →
  _InceptionModuleMI.forward m X h = Some (out, h') →
  ∃ (X1 : list shape) (X2 : shape) b hh w,
    length X1 = Z.to_nat n
    ∧ Forall (λ x, x !! 1%nat = Some f) (X1 ++ [X2])
    ∧ Shape.cat (X1 ++ [X2]) 1 = Some out
    ∧ out = [b; (n + 1) * f; hh; w]
    ∧ h' = h.
Proof.
  intros Hinit Hfwd.
  destruct (Py.int (ks * sf)%float) as [ku|] eqn:Hku;
    [|by unfold _InceptionModuleMI.__init__ in Hinit; rewrite Hku in Hinit].
  destruct (inception_fields c f n ks sf act θ m ku Hinit Hku)
    as (Hb & Hp & Hpc & Hcl & Hbn & Ha).
  unfold _InceptionModuleMI.forward in Hfwd.
  apply bind_Some in Hfwd as (X0 & h1 & [H0 ->]%lift_Some & Hfwd).
  apply bind_Some in Hfwd as (X1 & h1 & [H1 ->]%lift_Some & Hfwd).
  apply bind_Some in Hfwd as (Xp & h1 & [H2 ->]%lift_Some & Hfwd).
  apply bind_Some in Hfwd as (X2 & h1 & [H3 ->]%lift_Some & Hfwd).
  apply bind_Some in Hfwd as (o1 & h1 & [H4 ->]%lift_Some & Hfwd).
  apply bind_Some in Hfwd as (o2 & h1 & [H5 ->]%lift_Some & Hfwd).
  apply call_shape_Some in Hfwd as [-> ->].
  cbn [conv2d cat batch_norm2d shape_torch] in *.
  apply batch_norm2d_Some in H5 as [-> (b & hh & w & -> & _)].
  rewrite Hbn in *. simpl.
  exists X1, X2, b, hh, w. split_and!; try done.
  - apply mapM_Some, Forall2_length in H1. rewrite <- H1, Hcl.
    unfold Py.range. by rewrite length_fmap, length_seqZ.
  - apply Forall_app. split.
    + eapply mapM_conv2d_channels; [|exact H1].
      rewrite Hcl. apply Forall_fmap, Forall_true. done.
    + constructor; [|done]. rewrite Hpc in H3.
      apply conv2d_channels in H3 as (? & ? & ? & ->). done.
  - shape_eq.
Qed.

(** ** The residual module on shapes *)

Lemma residual_forward_shape c f act θ b hh w (h : gmap loc unit) :
  1 ≤ hh → 1 ≤ w → b * hh * w ≠ 1 → h !! act = Some tt →
  _ResidualModuleMI.forward (_ResidualModuleMI.__init__ c f act θ) [b; c; hh; w] h
  = Some ([b; f; hh; w], h).
Proof.
  intros Hh Hw Hone Hact. unfold _ResidualModuleMI.forward, bind, lift.
  cbn [_ResidualModuleMI.__init__ _ResidualModuleMI.conv _ResidualModuleMI.bn
       _ResidualModuleMI.activation conv2d batch_norm2d shape_torch].
  destruct (θ 0%nat), (θ 1%nat).
  rewrite conv2d_pointwise by done. cbn [fmap option_fmap option_map].
  rewrite batch_norm2d_run by done. cbn [fmap option_fmap option_map].
  by rewrite call_shape.
Qed.

Lemma linear_2d (m : Linear unit) (b x : Z) :
  Shape.linear m [b; x]
  = if bool_decide (x = ln_in_features m) then Some [b; ln_out_features m]
    else None.
Proof. reflexivity. Qed.

Lemma broadcast_rev_same (s : shape) : Shape.broadcast_rev s s = Some s.
Proof.
  induction s as [|a s IH]; [done|].
  simpl. decide_true. by rewrite IH.
Qed.

Lemma add_same (s : shape) : Shape.add s s = Some s.
Proof.
  unfold Shape.add. rewrite broadcast_rev_same. simpl.
  by rewrite reverse_involutive.
Qed.

(** ** The network built by the constructor *)

Section Constructed.
Context {T P A : Type} `{!Torch T P, !Activation T A}.
Import EEGInceptionMI.

Variables (Ensure4d : T → option T) (c ncls : Z) (ws sf : float) (n f : Z)
          (ks : float) (act : loc) (θ : nat → nat → P).
Variable net : EEGInceptionMI.t T P.
Hypothesis Hinit : __init__ Ensure4d c ncls ws sf n f ks act θ = Some net.

(** What the constructor stores, submodule by submodule. *)
Lemma net_fields :
  ∃ iws i0 i1 i2 j1 j2 j3,
    Py.int (ws * sf)%float = Some iws
    ∧ _InceptionModuleMI.__init__ c f n ks sf act (θ 0%nat) = Some i0
    ∧ _InceptionModuleMI.__init__ ((n + 1) * f) f n ks sf act (θ 1%nat) = Some i1
    ∧ _InceptionModuleMI.__init__ ((n + 1) * f) f n ks sf act (θ 2%nat) = Some i2
    ∧ _InceptionModuleMI.__init__ ((n + 1) * f) f n ks sf act (θ 4%nat) = Some j1
    ∧ _InceptionModuleMI.__init__ ((n + 1) * f) f n ks sf act (θ 5%nat) = Some j2
    ∧ _InceptionModuleMI.__init__ ((n + 1) * f) f n ks sf act (θ 6%nat) = Some j3
    ∧ net = {|
        in_channels := c;
        n_classes := ncls;
        input_window_s := ws;
        input_window_samples := iws;
        sfreq := sf;
        n_convs := n;
        n_filters := f;
        kernel_unit_s := ks;
        activation := act;
        ensuredims := Ensure4d;
        dimshuffle := Expression _transpose_to_b_c_1_t;
        initial_inception_module := i0;
        intermediate_inception_modules_1 := [i1; i2];
        residual_block_1 :=
          _ResidualModuleMI.__init__ c ((n + 1) * f) act (θ 3%nat);
        intermediate_inception_modules_2 := [j1; j2; j3];
        residual_block_2 :=
          _ResidualModuleMI.__init__ ((n + 1) * f) ((n + 1) * f) act (θ 7%nat);
        ave_pooling := mkAvgPool2d (1, iws);
        flat := mkFlatten;
        fc := mkLinear ((n + 1) * f) ncls true (θ 8%nat 0%nat);
        softmax := mkLogSoftmax 1 |}.
Proof.
  revert Hinit. unfold __init__.
  change (Py.range 2) with [0; 1]. change (Py.range 3) with [0; 1; 2].
  destruct (Py.int (ws * sf)%float) as [iws|]; simpl; [|discriminate].
  destruct (_InceptionModuleMI.__init__ c f n ks sf act (θ 0%nat))
    as [i0|]; simpl; [|discriminate].
  change (Z.to_nat 0) with 0%nat. change (Z.to_nat 1) with 1%nat.
  change (Z.to_nat 2) with 2%nat.
  destruct (_InceptionModuleMI.__init__ _ f n ks sf act (θ 1%nat))
    as [i1|]; simpl; [|discriminate].
  destruct (_InceptionModuleMI.__init__ _ f n ks sf act (θ 2%nat))
    as [i2|]; simpl; [|discriminate].
  destruct (_InceptionModuleMI.__init__ _ f n ks sf act (θ 4%nat))
    as [j1|]; simpl; [|discriminate].
  destruct (_InceptionModuleMI.__init__ _ f n ks sf act (θ 5%nat))
    as [j2|]; simpl; [|discriminate].
  destruct (_InceptionModuleMI.__init__ _ f n ks sf act (θ 6%nat))
    as [j3|]; simpl; [|discriminate].
  intros [= <-]. by exists iws, i0, i1, i2, j1, j2, j3.
Qed.
End Constructed.

Section PartsFacts.
Context {T P A : Type} `{!Torch T P, !Activation T A}.
Import EEGInceptionMI.

Lemma forward_parts (self : EEGInceptionMI.t T P) (X : T) (h : gmap loc A) :
  forward self X h
  = bind (features self X) (λ out, lift (classify self out)) h.
Proof.
  unfold forward, features. symmetry.
  repeat (rewrite bind_assoc; apply bind_ext; intros ? ?).
  apply bind_ext. intros out h'. unfold classify, bind, lift.
  destruct (avg_pool2d _ out) as [o1|]; simpl; [|done].
  destruct (flatten _ o1) as [o2|]; simpl; [|done].
  destruct (linear _ o2) as [o3|]; simpl; done.
Qed.
End PartsFacts.

Lemma permute_b_c_t_1 (b c t e : Z) :
  Shape.permute [b; c; t; e] [0; 1; 3; 2]%nat = Some [b; c; e; t].
Proof. reflexivity. Qed.

(** ** The network on shapes *)

Section NetShape.
Import EEGInceptionMI.

Variables (Ensure4d : shape → option shape) (c ncls : Z) (ws sf : float)
          (n f : Z) (ks : float) (act : loc) (θ : nat → nat → unit).
Variable net : EEGInceptionMI.t shape unit.
Variables iws ku : Z.
Hypothesis Hinit : __init__ Ensure4d c ncls ws sf n f ks act θ = Some net.
Hypothesis Hiws : Py.int (ws * sf)%float = Some iws.
Hypothesis Hku : Py.int (ks * sf)%float = Some ku.
Hypothesis Hku1 : 1 ≤ ku.
Hypothesis Hodd : Z.odd ku = true.
Hypothesis Hn : 0 ≤ n.
Hypothesis Hf : 1 ≤ f.
Hypothesis Hc : 1 ≤ c.

(** Up to the second residual sum the time axis and the singleton axis
    are kept and the channels become [(n_convs + 1) * n_filters], the
    batch normalisations seeing more than one value per channel. *)
Lemma features_shape X X' b hh w (h : gmap loc unit) :
  Ensure4d X = Some X' →
  Shape.permute X' [0; 1; 3; 2]%nat = Some [b; c; hh; w] →
  1 ≤ hh → 1 ≤ w → b * hh * w ≠ 1 → h !! act = Some tt →
  features net X h = Some ([b; (n + 1) * f; hh; w], h).
Proof.
  intros HE Hperm Hh Hw Hone Hact.
  destruct (net_fields _ _ _ _ _ _ _ _ _ _ _ Hinit)
    as (iws' & i0 & i1 & i2 & j1 & j2 & j3
        & _ & Hi0 & Hi1 & Hi2 & Hj1 & Hj2 & Hj3 & ->).
  assert ((n + 1) * f ≠ 0) as Hch by nia.
  assert (∀ c' θ' m,
            _InceptionModuleMI.__init__ c' f n ks sf act θ' = Some m →
            c' ≠ 0 →
            _InceptionModuleMI.forward (T:=shape) m [b; c'; hh; w] h
            = Some ([b; (n + 1) * f; hh; w], h)) as Hinc.
  { intros c' θ' m Hm Hc'.
    rewrite (inception_forward_shape c' f n ks sf act θ' m ku Hm Hku) by done.
    rewrite Hodd. by rewrite bool_decide_eq_false_2. }
  unfold features.
  cbn [ensuredims dimshuffle residual_block_1 residual_block_2
       initial_inception_module intermediate_inception_modules_1
       intermediate_inception_modules_2 for_in].
  unfold bind, lift, ret, Expression, _transpose_to_b_c_1_t.
  cbn [permute add shape_torch].
  step HE. step Hperm.
  step residual_forward_shape.
  step (Hinc _ _ _ Hi0).
  step (Hinc _ _ _ Hi1).
  step (Hinc _ _ _ Hi2).
  step add_same.
  step residual_forward_shape.
  step (Hinc _ _ _ Hj1).
  step (Hinc _ _ _ Hj2).
  step (Hinc _ _ _ Hj3).
  step add_same. done.
Qed.

(** The classifier: the average pooling needs at least
    [input_window_samples] time steps, and the linear layer exactly
    [(n_convs + 1) * n_filters] flattened features. *)
Lemma classify_shape_extra b e t :
  1 ≤ iws → 1 ≤ e → 1 ≤ t →
  classify net [b; (n + 1) * f; e; t]
  = if bool_decide (e = 1 ∧ iws ≤ t ≤ 2 * iws - 1) then Some [b; ncls]
    else None.
Proof.
  intros Hi He Ht.
  destruct (net_fields _ _ _ _ _ _ _ _ _ _ _ Hinit)
    as (iws' & i0 & i1 & i2 & j1 & j2 & j3
        & Hiws' & _ & _ & _ & _ & _ & _ & ->).
  assert (iws' = iws) as -> by congruence.
  assert (1 ≤ (n + 1) * f) as Hch by nia.
  unfold classify. cbn [ave_pooling flat fc softmax].
  cbn [avg_pool2d flatten linear log_softmax shape_torch].
  unfold Shape.avg_pool2d, Shape.pool2d, Shape.pool_out.
  cbn [ap_kernel_size fst snd].
  change (1 `div` 2) with 0. rewrite Z.div_1_r.
  assert (0 ≤ iws `div` 2) by (apply Z.div_pos; lia).
  replace (t + 2 * 0 - iws) with (t + (-1) * iws) by lia.
  rewrite Z.div_add by lia.
  pose proof (Z.div_pos t iws ltac:(lia) ltac:(lia)) as Hq0.
  pose proof (Z.div_small_iff t iws ltac:(lia)) as Hsmall.
  pose proof (Z.div_le_lower_bound t iws 2 ltac:(lia)) as Hq2.
  pose proof (Z.div_lt_upper_bound t iws 2 ltac:(lia)) as Hq1.
  set (q := t `div` iws) in *.
  decide_true. cbn [mbind option_bind].
  destruct (decide (iws ≤ t)) as [Hle|Hgt].
  - rewrite (bool_decide_eq_true_2 (1 ≤ q + -1 + 1)) by lia.
    simpl. rewrite linear_2d. cbn [ln_in_features ln_out_features].
    destruct (decide (e = 1 ∧ iws ≤ t ≤ 2 * iws - 1)) as [[-> Hr]|Hout].
    + assert (q = 1) as Hq by lia.
      rewrite !bool_decide_eq_true_2 by (first [done | rewrite Hq; lia]).
      reflexivity.
    + rewrite (bool_decide_eq_false_2 (e = 1 ∧ _)) by done.
      assert (1 ≤ q) by lia.
      rewrite bool_decide_eq_false_2; [done|].
      intros Heq. apply Hout.
      assert (e * q = 1) as Heq' by nia.
      assert (e = 1 ∧ q = 1) as [-> Hq] by nia. lia.
  - rewrite (bool_decide_eq_false_2 (1 ≤ q + -1 + 1)) by lia.
    by rewrite bool_decide_eq_false_2 by lia.
Qed.

(** The whole forward evaluation on an input that the normaliser turns into
    a 4-axis tensor of [in_channels] channels with more than one value per
    channel. *)
Lemma forward_shape_on X b t e (h : gmap loc unit) :
  1 ≤ iws →
  Ensure4d X = Some [b; c; t; e] → 1 ≤ e → 1 ≤ t → b * e * t ≠ 1 →
  h !! act = Some tt →
  forward net X h
  = if bool_decide (e = 1 ∧ iws ≤ t ≤ 2 * iws - 1)
    then Some ([b; ncls], h) else None.
Proof.
  intros Hi HE He Ht Hone Hact. rewrite forward_parts.
  erewrite bind_run; last first.
  { eapply features_shape; eauto using permute_b_c_t_1. }
  unfold lift. rewrite classify_shape_extra by done.
  by case_bool_decide.
Qed.
End NetShape.

(** ** Truncation and rounding *)

Lemma Qtrunc_nonneg (q : Q) : (0 <= q)%Q → Py.Qtrunc q = Qfloor q.
Proof.
  destruct q as [a d]. unfold Qle, Py.Qtrunc, Qfloor. simpl. intros Ha.
  apply Z.quot_div_nonneg; lia.
Qed.

Lemma Qtrunc_nonpos (q : Q) : (q <= 0)%Q → Py.Qtrunc q = Qceiling q.
Proof.
  destruct q as [a d]. unfold Qle, Py.Qtrunc, Qceiling, Qfloor. simpl. intros Ha.
  rewrite <- (Z.opp_involutive a) at 1. rewrite Z.quot_opp_l by lia.
  f_equal. apply Z.quot_div_nonneg; lia.
Qed.

Lemma Qtrunc_spec (q : Q) :
  ((0 <= q → inject_Z (Py.Qtrunc q) <= q < inject_Z (Py.Qtrunc q) + 1)
   ∧ (q <= 0 → inject_Z (Py.Qtrunc q) - 1 < q <= inject_Z (Py.Qtrunc q)))%Q.
Proof.
  split; intros Hq.
  - rewrite Qtrunc_nonneg by done. split; [apply Qfloor_le|].
    rewrite <- (inject_Z_plus _ 1). apply Qlt_floor.
  - rewrite Qtrunc_nonpos by done. split; [|apply Qle_ceiling].
    change 1%Q with (inject_Z 1). unfold Qminus. rewrite <- inject_Z_opp, <- inject_Z_plus.
    apply Qceiling_lt.
Qed.

Lemma Qround_half_even_trunc (q : Q) :
  (0 <= q)%Q →
  Py.Qround_half_even q = Py.Qtrunc q
  ↔ (q - inject_Z (Py.Qtrunc q) < 1 # 2)%Q
    ∨ ((q - inject_Z (Py.Qtrunc q) == 1 # 2)%Q ∧ Z.even (Py.Qtrunc q) = true).
Proof.
  intros Hq. rewrite Qtrunc_nonneg by done. unfold Py.Qround_half_even.
  destruct (Qcompare_spec (q - inject_Z (Qfloor q)) (1 # 2)) as [He|Hl|Hg].
  - destruct (Z.even (Qfloor q)) eqn:Hev.
    + split; [intros _; right; split; [exact He | reflexivity] | reflexivity].
    + split; [lia|]. intros [Hlt|[_ ?]]; [|done].
      rewrite He in Hlt. by apply Qlt_irrefl in Hlt.
  - split; [intros _; by left | reflexivity].
  - split; [lia|]. intros [Hlt|[He _]].
    + exfalso. apply (Qlt_irrefl (1 # 2)). by apply (Qlt_trans _ _ _ Hg).
    + rewrite He in Hg. by apply Qlt_irrefl in Hg.
Qed.

(** * Main results *)

(** C1.  At 200 Hz the reference configuration has windows of 900 samples
    and a kernel unit of 20.  The constructor returns, and on a batch of 2
    windows of the configured shape, (2, 22, 900), the forward evaluation
    raises instead of returning (2, 4): in the initial Inception module the
    max pooling (kernel 20, stride 1, padding 10) returns 901 samples, the
    convolutions 900, and [torch.cat] refuses them. *)
Theorem forward_output_shape_fails_at_200_Hz :
  ∃ net, reference_at_200_Hz append_singleton_axes 1%positive = Some net
         ∧ EEGInceptionMI.input_window_samples net = 900
         ∧ _InceptionModuleMI.pooling (EEGInceptionMI.initial_inception_module net)
           = mkMaxPool2d (1, 20) (1, 1) (0, 10)
         ∧ _InceptionModuleMI.forward
             (EEGInceptionMI.initial_inception_module net)
             [2; 22; 1; 900] {[ 1%positive := tt ]} = None
         ∧ EEGInceptionMI.forward net [2; 22; 900] {[ 1%positive := tt ]}
           = None.
Proof.
  eexists. split; [vm_compute; reflexivity|].
  split_and!; vm_compute; reflexivity.
Qed.

(** C10.  At 200 Hz, with [input_window_samples = 900], the lengths 900 and
    1799 lie in the range [900 ≤ t ≤ 2 * 900 - 1], and the forward
    evaluation raises on both; it raises before the average pooling and the
    linear layer are reached, in the initial Inception module. *)
Theorem forward_window_range_fails_at_200_Hz :
  ∃ net, reference_at_200_Hz append_singleton_axes 1%positive = Some net
         ∧ EEGInceptionMI.input_window_samples net = 900
         ∧ 900 ≤ 900 ≤ 2 * 900 - 1
         ∧ 900 ≤ 1799 ≤ 2 * 900 - 1
         ∧ EEGInceptionMI.forward net [2; 22; 900] {[ 1%positive := tt ]}
           = None
         ∧ EEGInceptionMI.forward net [2; 22; 1799] {[ 1%positive := tt ]}
           = None
         ∧ features net [2; 22; 900] {[ 1%positive := tt ]} = None
         ∧ features net [2; 22; 1799] {[ 1%positive := tt ]} = None.
Proof.
  eexists. split; [vm_compute; reflexivity|].
  split_and!; try lia; vm_compute; reflexivity.
Qed.




(** C3.  Whenever the forward evaluation of an Inception module returns, for
    any configuration and any input, its output is the concatenation along
    axis 1 of the [n_convs] convolution outputs and of the pooled
    projection, each of [n_filters] channels, and has
    [(n_convs + 1) * n_filters] channels. *)
Theorem inception_output_channels (c f n : Z) (ks sf : float) (act : loc)
    (θ : nat → unit) (m : _InceptionModuleMI.t unit) (X out : shape)
    (h h' : gmap loc unit) :
  _InceptionModuleMI.__init__ c f n ks sf act θ = Some m →
  _InceptionModuleMI.forward m X h = Some (out, h') →
  ∃ (X1 : list shape) (X2 : shape),
    length X1 = Z.to_nat n
    ∧ Forall (λ x, x !! 1%nat = Some f) (X1 ++ [X2])
    ∧ Shape.cat (X1 ++ [X2]) 1 = Some out
    ∧ out !! 1%nat = Some ((n + 1) * f)
    ∧ length out = 4%nat.
Proof.
  intros Hinit Hfwd.
  destruct (inception_forward_inv c f n ks sf act θ m X out h h' Hinit Hfwd)
    as (X1 & X2 & b & hh & w & Hlen & Hall & Hcat & -> & _).
  by exists X1, X2.
Qed.

(** The initial module of the reference network on a batch of 2 windows:
    22 channels in, 6 × 48 = 288 channels out. *)
Lemma inception_output_channels_reference :
  ∃ (X1 : list shape) (X2 : shape),
    length X1 = 5%nat
    ∧ Forall (λ x, x !! 1%nat = Some 48) (X1 ++ [X2])
    ∧ Shape.cat (X1 ++ [X2]) 1 = Some [2; 288; 1; 1125]
    ∧ [2; 288; 1; 1125] !! 1%nat = Some ((5 + 1) * 48)
    ∧ length [2; 288; 1; 1125] = 4%nat.
Proof.
  eapply (inception_output_channels 22 48 5 kernel_unit_s_default 250%float
            1%positive (λ _, tt) _ [2; 22; 1; 1125] [2; 288; 1; 1125]
            {[ 1%positive := tt ]} {[ 1%positive := tt ]}).
  - vm_compute. reflexivity.
  - vm_compute. reflexivity.
Defined.

(** C4.  With [sfreq=200] the kernel unit is 20 samples, an even number.
    On a window of 900 samples the five convolutions keep 900 samples, the
    max pooling (kernel 20, stride 1, padding 10) returns 901, and
    [torch.cat] raises: the forward evaluation fails although 900 is at
    least the largest kernel width, 180. *)
Theorem inception_even_kernel_unit_fails :
  ∃ m, _InceptionModuleMI.__init__ 22 48 5 kernel_unit_s_default 200%float
         1%positive (λ _, tt) = Some m
       ∧ _InceptionModuleMI.pooling m = mkMaxPool2d (1, 20) (1, 1) (0, 10)
       ∧ cv_kernel_size <$> _InceptionModuleMI.conv_list m
         = [(1, 20); (1, 60); (1, 100); (1, 140); (1, 180)]
       ∧ mapM (λ conv, Shape.conv2d conv [2; 48; 1; 900])
              (_InceptionModuleMI.conv_list m)
         = Some (replicate 5 [2; 48; 1; 900])
       ∧ Shape.max_pool2d (_InceptionModuleMI.pooling m) [2; 22; 1; 900]
         = Some [2; 22; 1; 901]
       ∧ _InceptionModuleMI.forward m [2; 22; 1; 900] {[ 1%positive := tt ]}
         = None.
Proof.
  eexists. split; [vm_compute; reflexivity|].
  split_and!; vm_compute; reflexivity.
Qed.

(** C6.  The Dimension Normalizer of §4.1 sends (batch, channel, time) to
    (batch, channel, 1, time), which is the input with a singleton axis
    inserted before the time axis; it returns a 4-axis input unchanged; it
    fails on every other rank. *)
Theorem Ensure4d_spec_contract :
  (∀ b c t, Ensure4d_spec [b; c; t] = Some [b; c; 1; t]
            ∧ Ensure4d_spec [b; c; t] = unsqueeze 2 [b; c; t])
  ∧ (∀ x, length x = 4%nat → Ensure4d_spec x = Some x)
  ∧ (∀ x, length x ≠ 3%nat → length x ≠ 4%nat → Ensure4d_spec x = None).
Proof.
  split_and!.
  - intros b c t. split; reflexivity.
  - intros x Hx. by destruct x as [|? [|? [|? [|? [|]]]]].
  - intros x H3 H4. by destruct x as [|? [|? [|? [|? [|]]]]].
Qed.

Lemma Ensure4d_spec_contract_examples :
  Ensure4d_spec [2; 22; 1125] = Some [2; 22; 1; 1125]
  ∧ Ensure4d_spec [2; 22; 1125; 1] = Some [2; 22; 1125; 1]
  ∧ Ensure4d_spec [22; 1125] = None.
Proof.
  destruct Ensure4d_spec_contract as (H3 & H4 & Hother).
  split_and!.
  - apply H3.
  - apply H4. reflexivity.
  - apply Hother; simpl; lia.
Defined.

(** The forward evaluation needs the other layout: with a normaliser that
    returns (batch, channel, 1, time) the reference network fails on its
    reference input, at the average pooling. *)
Lemma forward_fails_after_Ensure4d_spec :
  ∃ net, reference Ensure4d_spec 1%positive = Some net
         ∧ features net [2; 22; 1125] {[ 1%positive := tt ]}
           = Some ([2; 288; 1125; 1], {[ 1%positive := tt ]})
         ∧ EEGInceptionMI.forward net [2; 22; 1125] {[ 1%positive := tt ]}
           = None.
Proof.
  eexists. split; [vm_compute; reflexivity|].
  split; vm_compute; reflexivity.
Qed.

(** C5, as the specification states it.  At 256 Hz a window of 4.3 s has
    1100.8 samples and the kernel unit of 0.1 s has 25.6: the constructors
    store 1100 and 25, rounding would give 1101 and 26. *)
Lemma derived_counts_not_rounded :
  ∃ net,
    EEGInceptionMI.__init__ append_singleton_axes 22 4 window_4_3_s 256%float
      5 48 kernel_unit_s_default 1%positive (λ _ _, tt) = Some net
    ∧ EEGInceptionMI.input_window_samples net = 1100
    ∧ Py.round (window_4_3_s * 256)%float = Some 1101
    ∧ _InceptionModuleMI.pooling (EEGInceptionMI.initial_inception_module net)
      = mkMaxPool2d (1, 25) (1, 1) (0, 12)
    ∧ Py.round (kernel_unit_s_default * 256)%float = Some 26.
Proof.
  eexists. split; [vm_compute; reflexivity|].
  split_and!; vm_compute; reflexivity.
Qed.

(** C5, amended.  The derived sample counts are the products truncated
    toward zero, as [int] does: [input_window_samples] is the truncation of
    [input_window_s * sfreq], and the kernel unit used by the pooling and
    the convolutions of an Inception module is the truncation of
    [kernel_unit_s * sfreq].  A truncated count is the rounded one exactly
    when the fractional part of the product is below one half, or is one
    half next to an even integer. *)
Theorem derived_counts_truncate {T P : Type} `{!Torch T P}
    (Ensure4d : T → option T) (c ncls : Z) (ws sf : float) (n f : Z)
    (ks : float) (act : loc) (θ : nat → nat → P) (net : EEGInceptionMI.t T P) :
  EEGInceptionMI.__init__ Ensure4d c ncls ws sf n f ks act θ = Some net →
  truncation_of (ws * sf)%float (EEGInceptionMI.input_window_samples net)
  ∧ ∃ kernel_unit,
      truncation_of (ks * sf)%float kernel_unit
      ∧ Forall (λ m, _InceptionModuleMI.pooling m
                     = mkMaxPool2d (1, kernel_unit) (1, 1) (0, kernel_unit `div` 2)
                     ∧ cv_kernel_size <$> _InceptionModuleMI.conv_list m
                       = (λ k, (1, (k * 2 + 1) * kernel_unit)) <$> Py.range n)
          (EEGInceptionMI.initial_inception_module net
           :: EEGInceptionMI.intermediate_inception_modules_1 net
           ++ EEGInceptionMI.intermediate_inception_modules_2 net).
Proof.
  intros Hinit.
  assert (∀ x z, Py.int x = Some z → truncation_of x z) as Htrunc.
  { intros x z Hz. unfold Py.int in Hz.
    destruct (Py.float_to_Q x) as [q|] eqn:Hq; [|done].
    injection Hz as <-. exists q. split_and!.
    - done.
    - unfold Py.int. by rewrite Hq.
    - apply Qtrunc_spec.
    - apply Qtrunc_spec.
    - intros Hq0. unfold Py.round. rewrite Hq. simpl.
      rewrite <- (Qround_half_even_trunc q Hq0). split; congruence. }
  destruct (net_fields _ _ _ _ _ _ _ _ _ _ _ Hinit)
    as (iws & i0 & i1 & i2 & j1 & j2 & j3
        & Hiws & Hi0 & Hi1 & Hi2 & Hj1 & Hj2 & Hj3 & ->).
  split; [by apply Htrunc|].
  destruct (Py.int (ks * sf)%float) as [ku|] eqn:Hku;
    [|by unfold _InceptionModuleMI.__init__ in Hi0; rewrite Hku in Hi0].
  exists ku. split; [by apply Htrunc|].
  cbn [EEGInceptionMI.initial_inception_module
       EEGInceptionMI.intermediate_inception_modules_1
       EEGInceptionMI.intermediate_inception_modules_2 app].
  assert (∀ c' (θ' : nat → P) (m : _InceptionModuleMI.t P),
            _InceptionModuleMI.__init__ c' f n ks sf act θ' = Some m →
            _InceptionModuleMI.pooling m
            = mkMaxPool2d (1, ku) (1, 1) (0, ku `div` 2)
            ∧ cv_kernel_size <$> _InceptionModuleMI.conv_list m
              = (λ k, (1, (k * 2 + 1) * ku)) <$> Py.range n) as Hm.
  { intros c' θ' m. unfold _InceptionModuleMI.__init__. rewrite Hku. simpl.
    intros [= <-]. simpl. split; [done|].
    rewrite <- list_fmap_compose. done. }
  repeat (constructor; [by eapply Hm|]). constructor.
Qed.

(** The reference configuration: 1125 and 25 samples, both products being
    whole numbers. *)
Lemma derived_counts_truncate_reference :
  truncation_of (4.5 * 250)%float 1125
  ∧ truncation_of (kernel_unit_s_default * 250)%float 25.
Proof.
  destruct (reference append_singleton_axes 1%positive) as [net|] eqn:Hnet;
    [|by vm_compute in Hnet].
  destruct (derived_counts_truncate append_singleton_axes 22 4 4.5%float
              250%float 5 48 kernel_unit_s_default 1%positive (λ _ _, tt)
              net Hnet) as (Hw & ku & Hk & Hall).
  vm_compute in Hnet. injection Hnet as <-.
  split; [exact Hw|].
  apply Forall_cons in Hall as [[Hpool _] _].
  injection Hpool as <-. exact Hk.
Defined.

(** C2.  The forward evaluation of a constructed network is the data flow
    of §4.5 in its order: the normaliser given to the constructor and the
    permutation (0, 1, 3, 2); residual block 1 on the permuted input; the
    initial Inception module and the two modules of stage 1; the sum with
    the first residual; residual block 2 on that sum; the three modules of
    stage 2; the sum with the second residual; average pooling, flattening,
    the linear layer and the log-softmax over axis 1. *)
Theorem forward_follows_dataflow {T P A : Type} `{!Torch T P, !Activation T A}
    (Ensure4d : T → option T) (c ncls : Z) (ws sf : float) (n f : Z)
    (ks : float) (act : loc) (θ : nat → nat → P) (net : EEGInceptionMI.t T P) :
  EEGInceptionMI.__init__ Ensure4d c ncls ws sf n f ks act θ = Some net →
  ∃ iws initial first1 second1 first2 second2 third2,
    Py.int (ws * sf)%float = Some iws
    ∧ _InceptionModuleMI.__init__ c f n ks sf act (θ 0%nat) = Some initial
    ∧ EEGInceptionMI.initial_inception_module net = initial
    ∧ EEGInceptionMI.intermediate_inception_modules_1 net = [first1; second1]
    ∧ EEGInceptionMI.intermediate_inception_modules_2 net
      = [first2; second2; third2]
    ∧ Forall (λ m, ∃ θ', _InceptionModuleMI.__init__ ((n + 1) * f) f n ks sf
                           act θ' = Some m)
        [first1; second1; first2; second2; third2]
    ∧ ∀ (X : T) (h : gmap loc A),
        EEGInceptionMI.forward net X h
        = dataflow_spec
            Ensure4d
            (λ x, permute x [0; 1; 3; 2]%nat)
            (_ResidualModuleMI.forward
               (_ResidualModuleMI.__init__ c ((n + 1) * f) act (θ 3%nat)))
            (_InceptionModuleMI.forward initial)
            (_InceptionModuleMI.forward first1)
            (_InceptionModuleMI.forward second1)
            (_ResidualModuleMI.forward
               (_ResidualModuleMI.__init__ ((n + 1) * f) ((n + 1) * f) act
                  (θ 7%nat)))
            (_InceptionModuleMI.forward first2)
            (_InceptionModuleMI.forward second2)
            (_InceptionModuleMI.forward third2)
            (avg_pool2d (mkAvgPool2d (1, iws)))
            (flatten mkFlatten)
            (linear (mkLinear ((n + 1) * f) ncls true (θ 8%nat 0%nat)))
            (log_softmax (mkLogSoftmax 1))
            X h.
Proof.
  intros Hinit.
  destruct (net_fields _ _ _ _ _ _ _ _ _ _ _ Hinit)
    as (iws & i0 & i1 & i2 & j1 & j2 & j3
        & Hiws & Hi0 & Hi1 & Hi2 & Hj1 & Hj2 & Hj3 & ->).
  exists iws, i0, i1, i2, j1, j2, j3. split_and!; try done.
  { repeat (constructor; [by eexists|]). constructor. }
  intros X h. unfold EEGInceptionMI.forward, dataflow_spec.
  cbn [EEGInceptionMI.ensuredims EEGInceptionMI.dimshuffle
       EEGInceptionMI.residual_block_1 EEGInceptionMI.residual_block_2
       EEGInceptionMI.initial_inception_module
       EEGInceptionMI.intermediate_inception_modules_1
       EEGInceptionMI.intermediate_inception_modules_2
       EEGInceptionMI.ave_pooling EEGInceptionMI.flat EEGInceptionMI.fc
       EEGInceptionMI.softmax for_in].
  do 4 (apply bind_ext; intros ? ?).
  rewrite !bind_assoc. apply bind_ext; intros ? ?.
  rewrite !bind_assoc. apply bind_ext; intros ? ?.
  rewrite bind_ret_l.
  do 2 (apply bind_ext; intros ? ?).
  rewrite !bind_assoc. apply bind_ext; intros ? ?.
  rewrite !bind_assoc. apply bind_ext; intros ? ?.
  rewrite !bind_assoc. apply bind_ext; intros ? ?.
  rewrite bind_ret_l. reflexivity.
Qed.

(** On the reference input the data flow of the reference network yields
    the (2, 4) output. *)
Lemma forward_follows_dataflow_reference :
  ∃ net, reference append_singleton_axes 1%positive = Some net
         ∧ ∃ initial first1 second1 first2 second2 third2,
             dataflow_spec
               append_singleton_axes
               (λ x, permute x [0; 1; 3; 2]%nat)
               (_ResidualModuleMI.forward
                  (_ResidualModuleMI.__init__ 22 ((5 + 1) * 48) 1%positive (λ _, tt)))
               (_InceptionModuleMI.forward initial)
               (_InceptionModuleMI.forward first1)
               (_InceptionModuleMI.forward second1)
               (_ResidualModuleMI.forward
                  (_ResidualModuleMI.__init__ ((5 + 1) * 48) ((5 + 1) * 48)
                     1%positive (λ _, tt)))
               (_InceptionModuleMI.forward first2)
               (_InceptionModuleMI.forward second2)
               (_InceptionModuleMI.forward third2)
               (avg_pool2d (mkAvgPool2d (1, 1125)))
               (flatten mkFlatten)
               (linear (mkLinear ((5 + 1) * 48) 4 true tt))
               (log_softmax (mkLogSoftmax 1))
               [2; 22; 1125] {[ 1%positive := tt ]}
             = Some ([2; 4], {[ 1%positive := tt ]}).
Proof.
  destruct (reference append_singleton_axes 1%positive) as [net|] eqn:Hnet;
    [|by vm_compute in Hnet].
  destruct (forward_follows_dataflow append_singleton_axes 22 4 4.5%float
              250%float 5 48 kernel_unit_s_default 1%positive (λ _ _, tt)
              net Hnet)
    as (iws & i0 & i1 & i2 & j1 & j2 & j3 & Hiws & _ & _ & _ & _ & _ & Hflow).
  exists net. split; [reflexivity|].
  exists i0, i1, i2, j1, j2, j3.
  vm_compute in Hiws. injection Hiws as <-.
  rewrite <- Hflow.
  vm_compute in Hnet. injection Hnet as <-.
  vm_compute. reflexivity.
Defined.

(** ** Shared and independent activation objects *)

Section Sharing.
Context {T P A : Type} `{!Torch T P, !Activation T A}.
Hypothesis Hstateless : stateless_activation T A.
Variables (h h' : gmap loc A).

Lemma agree_lift {X} (o : option X) : agree (lift o) (lift o) h h'.
Proof. unfold agree, lift. by destruct o. Qed.

Lemma agree_bind {X Y} (m m' : M A X) (k k' : X → M A Y) :
  agree m m' h h' → (∀ x, agree (k x) (k' x) h h') →
  agree (bind m k) (bind m' k') h h'.
Proof.
  unfold agree at 1. unfold agree at 2. unfold bind. intros Hm Hk.
  destruct (m h) as [[y h1]|], (m' h') as [[y' h1']|]; try done.
  destruct Hm as (-> & -> & ->). apply Hk.
Qed.

Lemma agree_call (l l' : loc) (a : A) (x : T) :
  h !! l = Some a → h' !! l' = Some a →
  agree (call l x) (call l' x) h h'.
Proof.
  intros Hl Hl'. unfold agree, call. rewrite Hl, Hl'.
  pose proof (Hstateless a x) as Ha.
  destruct (activation_forward a x) as [a' [y|]]; simpl in *; [|done].
  subst a'. by rewrite !insert_id.
Qed.

Lemma agree_inception (m : _InceptionModuleMI.t P) (l' : loc) (a : A) (X : T) :
  h !! _InceptionModuleMI.activation m = Some a → h' !! l' = Some a →
  agree (_InceptionModuleMI.forward m X)
        (_InceptionModuleMI.forward (inception_with_activation l' m) X) h h'.
Proof.
  intros Hl Hl'. unfold _InceptionModuleMI.forward.
  cbn [inception_with_activation _InceptionModuleMI.bottleneck
       _InceptionModuleMI.conv_list _InceptionModuleMI.pooling
       _InceptionModuleMI.pooling_conv _InceptionModuleMI.bn
       _InceptionModuleMI.activation].
  repeat (apply agree_bind; [apply agree_lift|intros ?]).
  by eapply agree_call.
Qed.

Lemma agree_residual (m : _ResidualModuleMI.t P) (l' : loc) (a : A) (X : T) :
  h !! _ResidualModuleMI.activation m = Some a → h' !! l' = Some a →
  agree (_ResidualModuleMI.forward m X)
        (_ResidualModuleMI.forward (residual_with_activation l' m) X) h h'.
Proof.
  intros Hl Hl'. unfold _ResidualModuleMI.forward.
  cbn [residual_with_activation _ResidualModuleMI.conv _ResidualModuleMI.bn
       _ResidualModuleMI.activation].
  repeat (apply agree_bind; [apply agree_lift|intros ?]).
  by eapply agree_call.
Qed.

Lemma agree_ret {X} (x : X) : agree (ret x) (ret x) h h'.
Proof. done. Qed.

Lemma agree_output {X} (m m' : M A X) :
  agree m m' h h' → fst <$> m h = fst <$> m' h'.
Proof.
  unfold agree. destruct (m h) as [[y h1]|], (m' h') as [[y' h1']|]; try done.
  by intros (-> & _).
Qed.
End Sharing.

Lemma inception_init_activation {P : Type} c f n ks sf act (θ : nat → P) m :
  _InceptionModuleMI.__init__ c f n ks sf act θ = Some m →
  _InceptionModuleMI.activation m = act.
Proof.
  unfold _InceptionModuleMI.__init__.
  destruct (Py.int _); simpl; [|done]. by intros [= <-].
Qed.

(** C9.  When the activation is stateless, the network whose submodules all
    hold the one activation object given to the constructor and the network
    whose submodules each hold an object of their own, all objects being
    instances in the same state, compute the same output on every input, for
    every configuration. *)
Theorem shared_activation_equivalent {T P A : Type}
    `{!Torch T P, !Activation T A}
    (Ensure4d : T → option T) (c ncls : Z) (ws sf : float) (n f : Z)
    (ks : float) (act : loc) (θ : nat → nat → P) (net : EEGInceptionMI.t T P)
    (ℓ : nat → loc) (a : A) (h h' : gmap loc A) :
  stateless_activation T A →
  EEGInceptionMI.__init__ Ensure4d c ncls ws sf n f ks act θ = Some net →
  h !! act = Some a →
  (∀ i, (i < 8)%nat → h' !! ℓ i = Some a) →
  ∀ X : T,
    fst <$> EEGInceptionMI.forward net X h
    = fst <$> EEGInceptionMI.forward (independent_activations ℓ net) X h'.
Proof.
  intros Hst Hinit Hact Hind X.
  destruct (net_fields _ _ _ _ _ _ _ _ _ _ _ Hinit)
    as (iws & i0 & i1 & i2 & j1 & j2 & j3
        & Hiws & Hi0 & Hi1 & Hi2 & Hj1 & Hj2 & Hj3 & ->).
  apply inception_init_activation in Hi0, Hi1, Hi2, Hj1, Hj2, Hj3.
  apply agree_output.
  unfold EEGInceptionMI.forward.
  cbn [independent_activations imap
       EEGInceptionMI.ensuredims EEGInceptionMI.dimshuffle
       EEGInceptionMI.residual_block_1 EEGInceptionMI.residual_block_2
       EEGInceptionMI.initial_inception_module
       EEGInceptionMI.intermediate_inception_modules_1
       EEGInceptionMI.intermediate_inception_modules_2
       EEGInceptionMI.ave_pooling EEGInceptionMI.flat EEGInceptionMI.fc
       EEGInceptionMI.softmax for_in].
  assert (∀ (m : _InceptionModuleMI.t P) i x,
            _InceptionModuleMI.activation m = act → (i < 8)%nat →
            agree (_InceptionModuleMI.forward m x)
              (_InceptionModuleMI.forward (inception_with_activation (ℓ i) m) x)
              h h') as Hinc.
  { intros m i x Hm Hi. eapply agree_inception; [done| |by apply Hind].
    by rewrite Hm. }
  assert (∀ ci co θ' i x, (i < 8)%nat →
            agree (_ResidualModuleMI.forward
                     (_ResidualModuleMI.__init__ ci co act θ') x)
              (_ResidualModuleMI.forward
                 (residual_with_activation (ℓ i)
                    (_ResidualModuleMI.__init__ ci co act θ')) x)
              h h') as Hres.
  { intros ci co θ' i x Hi. eapply agree_residual; [done| |by apply Hind].
    done. }
  repeat first
    [ apply agree_lift
    | apply agree_ret
    | apply Hinc; [done|lia]
    | apply Hres; lia
    | apply agree_bind; [|intros ?] ].
Qed.

(** The reference network, with one shared object at address 1 and with
    eight objects at addresses 2 to 9. *)
Lemma shared_activation_equivalent_reference :
  ∃ net, reference append_singleton_axes 1%positive = Some net
         ∧ fst <$> EEGInceptionMI.forward net [2; 22; 1125] {[ 1%positive := tt ]}
           = fst <$> EEGInceptionMI.forward
                       (independent_activations fresh_activation net)
                       [2; 22; 1125] independent_heap.
Proof.
  destruct (reference append_singleton_axes 1%positive) as [net|] eqn:Hnet;
    [|by vm_compute in Hnet].
  exists net. split; [reflexivity|].
  apply (shared_activation_equivalent append_singleton_axes 22 4 4.5%float
           250%float 5 48 kernel_unit_s_default 1%positive (λ _ _, tt) net
           fresh_activation tt).
  - intros [] x. reflexivity.
  - exact Hnet.
  - reflexivity.
  - intros i Hi. do 8 (destruct i as [|i]; [reflexivity|]). lia.
Defined.

(** * Further properties *)

(** ** What the layers accept *)

Lemma conv2d_pointwise_inv ci co bias (X Y : shape) :
  Shape.conv2d (mkConv2d ci co (1, 1) (Pad 0 0) bias tt) X = Some Y →
  ∃ n h w, X = [n; ci; h; w] ∧ 1 ≤ h ∧ 1 ≤ w ∧ Y = [n; co; h; w].
Proof.
  unfold Shape.conv2d, Shape.conv_out.
  destruct X as [|n [|c' [|h [|w [|]]]]]; try discriminate.
  cbn [cv_in_channels cv_out_channels cv_kernel_size cv_padding].
  intros HY.
  repeat (case_bool_decide; cbn [mbind option_bind] in HY; try discriminate).
  injection HY as <-. subst c'.
  exists n, h, w. split_and!; try done; try lia. shape_eq.
Qed.

Lemma max_pool2d_unit_stride_inv ku n c h w (Y : shape) :
  Shape.max_pool2d (mkMaxPool2d (1, ku) (1, 1) (0, ku `div` 2)) [n; c; h; w]
  = Some Y →
  1 ≤ ku ∧ c ≠ 0.
Proof.
  unfold Shape.max_pool2d, Shape.pool2d, Shape.pool_out.
  cbn [mp_kernel_size mp_stride mp_padding fst snd].
  intros HY.
  repeat (case_bool_decide; cbn [mbind option_bind] in HY; try discriminate).
  lia.
Qed.

Lemma call_shape_lookup (l : loc) (s out : shape) (h h' : gmap loc unit) :
  call l s h = Some (out, h') → h !! l = Some tt.
Proof.
  unfold call. by destruct (h !! l) as [[]|].
Qed.

Lemma permute_0_1_3_2_inv (X Y : shape) :
  Shape.permute X [0; 1; 3; 2]%nat = Some Y →
  ∃ b c t e, X = [b; c; t; e] ∧ Y = [b; c; e; t].
Proof.
  unfold Shape.permute. case_bool_decide as Hd; [|discriminate].
  destruct Hd as (Hlen & _).
  destruct X as [|b [|c [|t [|e [|]]]]]; try discriminate.
  intros [= <-]. by exists b, c, t, e.
Qed.

Lemma residual_forward_inv c f act θ (X out : shape) (h h' : gmap loc unit) :
  _ResidualModuleMI.forward (_ResidualModuleMI.__init__ c f act θ) X h
  = Some (out, h') →
  ∃ b hh w, X = [b; c; hh; w] ∧ 1 ≤ hh ∧ 1 ≤ w ∧ b * hh * w ≠ 1
            ∧ out = [b; f; hh; w] ∧ h' = h ∧ h !! act = Some tt.
Proof.
  unfold _ResidualModuleMI.forward.
  cbn [_ResidualModuleMI.__init__ _ResidualModuleMI.conv _ResidualModuleMI.bn
       _ResidualModuleMI.activation conv2d batch_norm2d shape_torch].
  destruct (θ 0%nat), (θ 1%nat). intros Hfwd.
  apply bind_Some in Hfwd as (X0 & h1 & [H0 ->]%lift_Some & Hfwd).
  apply bind_Some in Hfwd as (X1 & h1 & [H1 ->]%lift_Some & Hfwd).
  apply conv2d_pointwise_inv in H0 as (b & hh & w & -> & Hh & Hw & ->).
  apply batch_norm2d_Some in H1 as [-> (b' & hh' & w' & [= <- <- <-] & Hone)].
  pose proof (call_shape_lookup _ _ _ _ _ Hfwd) as Hact.
  apply call_shape_Some in Hfwd as [-> ->].
  exists b, hh, w. split_and!; try done. by apply Hone.
Qed.

(** X1.  With positive channel counts, the residual module returns only on
    a 4-axis input of [in_channels] channels with non-empty last two axes
    and more than one value per channel, its batch normalisation being in
    training mode; and it returns on every such input of a positive batch
    size.  The output is the input with [n_filters] channels. *)
Theorem residual_forward_iff (c f : Z) (act : loc) (θ : nat → unit)
    (X : shape) (h : gmap loc unit) :
  1 ≤ c → 1 ≤ f → h !! act = Some tt →
  (∀ out h',
     _ResidualModuleMI.forward (_ResidualModuleMI.__init__ c f act θ) X h
     = Some (out, h') →
     ∃ b hh w, X = [b; c; hh; w] ∧ 1 ≤ hh ∧ 1 ≤ w ∧ b * hh * w ≠ 1
               ∧ out = [b; f; hh; w])
  ∧ (∀ b hh w,
       X = [b; c; hh; w] → 1 ≤ b → 1 ≤ hh → 1 ≤ w → 2 ≤ b * hh * w →
       _ResidualModuleMI.forward (_ResidualModuleMI.__init__ c f act θ) X h
       = Some ([b; f; hh; w], h)).
Proof.
  intros Hc Hf Hact. split.
  - intros out h' Hfwd.
    apply residual_forward_inv in Hfwd
      as (b & hh & w & -> & Hh & Hw & Hone & -> & _).
    by exists b, hh, w.
  - intros b hh w -> Hb Hh Hw Hmany.
    apply residual_forward_shape; first [done | lia].
Qed.

(** The first residual block of the reference network: it returns on a
    batch of 2 windows, and raises on a single window of a single sample. *)
Lemma residual_forward_iff_example :
  _ResidualModuleMI.forward
    (_ResidualModuleMI.__init__ 22 288 1%positive (λ _, tt))
    [2; 22; 1; 1125] {[ 1%positive := tt ]}
  = Some ([2; 288; 1; 1125], {[ 1%positive := tt ]})
  ∧ _ResidualModuleMI.forward
      (_ResidualModuleMI.__init__ 22 288 1%positive (λ _, tt))
      [1; 22; 1; 1] {[ 1%positive := tt ]}
    = None.
Proof.
  split; [|vm_compute; reflexivity].
  apply (residual_forward_iff 22 288 1%positive (λ _, tt) [2; 22; 1; 1125]
           {[ 1%positive := tt ]});
    first [reflexivity | lia].
Defined.

(** X2.  [_transpose_to_b_c_1_t] returns exactly on 4-axis tensors, swaps
    the last two axes, and undoes itself: applied to its own result it gives
    the input back. *)
Theorem transpose_involutive (x : shape) :
  (is_Some (_transpose_to_b_c_1_t x) ↔ length x = 4%nat)
  ∧ ∀ y, _transpose_to_b_c_1_t x = Some y →
         (∃ b c t e, x = [b; c; t; e] ∧ y = [b; c; e; t])
         ∧ _transpose_to_b_c_1_t y = Some x.
Proof.
  unfold _transpose_to_b_c_1_t. cbn [permute shape_torch]. split.
  - split.
    + intros [y Hy].
      by apply permute_0_1_3_2_inv in Hy as (b & c & t & e & -> & _).
    + intros Hlen. destruct x as [|b [|c [|t [|e [|]]]]]; try discriminate.
      by eexists.
  - intros y Hy.
    apply permute_0_1_3_2_inv in Hy as (b & c & t & e & -> & ->).
    split; [by exists b, c, t, e | reflexivity].
Qed.

(** ** What the Inception module accepts *)

Lemma inception_forward_requires c f n ks sf act θ
    (m : _InceptionModuleMI.t unit) ku (X out : shape) (h h' : gmap loc unit) :
  _InceptionModuleMI.__init__ c f n ks sf act θ = Some m →
  Py.int (ks * sf)%float = Some ku →
  _InceptionModuleMI.forward m X h = Some (out, h') →
  (∃ b hh w, X = [b; c; hh; w] ∧ 1 ≤ hh ∧ 1 ≤ w)
  ∧ c ≠ 0 ∧ 1 ≤ ku ∧ (Z.odd ku = true ∨ n ≤ 0)
  ∧ h !! act = Some tt ∧ h' = h.
Proof.
  intros Hinit Hku Hfwd.
  destruct (inception_fields c f n ks sf act θ m ku Hinit Hku)
    as (Hb & Hp & Hpc & Hcl & Hbn & Ha).
  pose proof Hfwd as Hfwd'.
  unfold _InceptionModuleMI.forward in Hfwd.
  apply bind_Some in Hfwd as (X0 & h1 & [H0 ->]%lift_Some & Hfwd).
  apply bind_Some in Hfwd as (X1 & h1 & [H1 ->]%lift_Some & Hfwd).
  apply bind_Some in Hfwd as (Xp & h1 & [H2 ->]%lift_Some & Hfwd).
  apply bind_Some in Hfwd as (X2 & h1 & [H3 ->]%lift_Some & Hfwd).
  apply bind_Some in Hfwd as (o1 & h1 & [H4 ->]%lift_Some & Hfwd).
  apply bind_Some in Hfwd as (o2 & h1 & [H5 ->]%lift_Some & Hfwd).
  pose proof (call_shape_lookup _ _ _ _ _ Hfwd) as Hact.
  apply call_shape_Some in Hfwd as [-> ->].
  cbn [conv2d max_pool2d shape_torch] in *.
  rewrite Hb in H0. rewrite Hp in H2. rewrite Ha in Hact.
  apply conv2d_pointwise_inv in H0 as (b & hh & w & -> & Hh & Hw & ->).
  apply max_pool2d_unit_stride_inv in H2 as (Hk & Hc).
  split_and!; try done; [by exists b, hh, w|].
  destruct (decide (n ≤ 0)) as [|Hn]; [by right|]. left.
  rewrite (inception_forward_shape c f n ks sf act θ m ku Hinit Hku)
    in Hfwd' by (done || lia).
  destruct (Z.odd ku); [done|].
  by rewrite bool_decide_eq_false_2 in Hfwd' by lia.
Qed.

(** X3.  With a positive, odd kernel unit and positive channel counts, the
    Inception module returns on every 4-axis input of [in_channels]
    channels, positive batch size and non-empty last two axes that holds
    more than one value per channel, however short the time axis is next to
    the kernels, and keeps all but the channel axis. *)
Theorem inception_accepts_every_length (c f n : Z) (ks sf : float) (act : loc)
    (θ : nat → unit) (m : _InceptionModuleMI.t unit) (ku b hh w : Z)
    (h : gmap loc unit) :
  _InceptionModuleMI.__init__ c f n ks sf act θ = Some m →
  Py.int (ks * sf)%float = Some ku →
  1 ≤ ku → Z.odd ku = true → 0 ≤ n → 1 ≤ c → 1 ≤ f →
  1 ≤ b → 1 ≤ hh → 1 ≤ w → 2 ≤ b * hh * w → h !! act = Some tt →
  _InceptionModuleMI.forward m [b; c; hh; w] h
  = Some ([b; (n + 1) * f; hh; w], h).
Proof.
  intros Hinit Hku Hk Hodd Hn Hc Hf Hb Hh Hw Hmany Hact.
  rewrite (inception_forward_shape c f n ks sf act θ m ku Hinit Hku)
    by (first [done | lia]).
  rewrite Hodd. by rewrite bool_decide_eq_false_2 by lia.
Qed.

(** A window of 10 samples, shorter than the smallest kernel, 25. *)
Lemma inception_accepts_every_length_example :
  ∃ m, _InceptionModuleMI.__init__ 22 48 5 kernel_unit_s_default 250%float
         1%positive (λ _, tt) = Some m
       ∧ _InceptionModuleMI.forward m [2; 22; 1; 10] {[ 1%positive := tt ]}
         = Some ([2; (5 + 1) * 48; 1; 10], {[ 1%positive := tt ]}).
Proof.
  eexists. split; [vm_compute; reflexivity|].
  apply (inception_accepts_every_length 22 48 5 kernel_unit_s_default
           250%float 1%positive (λ _, tt) _ 25);
    first [reflexivity | lia | done].
Defined.

(** X4.  The Inception module returns only on a 4-axis input of
    [in_channels] channels, and only if the kernel unit is positive and,
    there being at least one convolution, odd. *)
Theorem inception_returns_only_if (c f n : Z) (ks sf : float) (act : loc)
    (θ : nat → unit) (m : _InceptionModuleMI.t unit) (ku : Z)
    (X out : shape) (h h' : gmap loc unit) :
  _InceptionModuleMI.__init__ c f n ks sf act θ = Some m →
  Py.int (ks * sf)%float = Some ku →
  _InceptionModuleMI.forward m X h = Some (out, h') →
  (∃ b hh w, X = [b; c; hh; w] ∧ 1 ≤ hh ∧ 1 ≤ w)
  ∧ 1 ≤ ku ∧ (Z.odd ku = true ∨ n ≤ 0).
Proof.
  intros Hinit Hku Hfwd.
  destruct (inception_forward_requires c f n ks sf act θ m ku X out h h'
              Hinit Hku Hfwd) as (HX & _ & Hk & Hodd & _).
  done.
Qed.

Lemma inception_returns_only_if_example :
  (∃ b hh w, [2; 22; 1; 1125] = [b; 22; hh; w] ∧ 1 ≤ hh ∧ 1 ≤ w)
  ∧ 1 ≤ 25 ∧ (Z.odd 25 = true ∨ 5 ≤ 0).
Proof.
  eapply (inception_returns_only_if 22 48 5 kernel_unit_s_default 250%float
            1%positive (λ _, tt) _ 25 [2; 22; 1; 1125] [2; 288; 1; 1125]
            {[ 1%positive := tt ]} {[ 1%positive := tt ]}).
  - vm_compute. reflexivity.
  - vm_compute. reflexivity.
  - vm_compute. reflexivity.
Defined.

(** ** What the network accepts *)

Section NetAccepts.
Import EEGInceptionMI.

Variables (Ensure4d : shape → option shape) (c ncls : Z) (ws sf : float)
          (n f : Z) (ks : float) (act : loc) (θ : nat → nat → unit).
Variable net : EEGInceptionMI.t shape unit.
Variables iws ku : Z.
Hypothesis Hinit : __init__ Ensure4d c ncls ws sf n f ks act θ = Some net.
Hypothesis Hiws : Py.int (ws * sf)%float = Some iws.
Hypothesis Hku : Py.int (ks * sf)%float = Some ku.

(** What a returning [forward] went through before its first Inception
    module. *)
Lemma forward_reaches_inception X out (h h' : gmap loc unit) :
  forward net X h = Some (out, h') →
  ∃ X' b t e i0 o0 h1,
    Ensure4d X = Some X' ∧ X' = [b; c; t; e] ∧ 1 ≤ e ∧ 1 ≤ t
    ∧ b * e * t ≠ 1 ∧ h !! act = Some tt
    ∧ _InceptionModuleMI.__init__ c f n ks sf act (θ 0%nat) = Some i0
    ∧ _InceptionModuleMI.forward i0 [b; c; e; t] h = Some (o0, h1).
Proof.
  intros Hfwd.
  destruct (net_fields _ _ _ _ _ _ _ _ _ _ _ Hinit)
    as (iws' & i0 & i1 & i2 & j1 & j2 & j3
        & _ & Hi0 & _ & _ & _ & _ & _ & Hnet).
  rewrite Hnet in Hfwd. unfold forward in Hfwd.
  cbn [ensuredims dimshuffle residual_block_1 initial_inception_module] in Hfwd.
  apply bind_Some in Hfwd as (X' & h1 & [HE ->]%lift_Some & Hfwd).
  apply bind_Some in Hfwd as (X'' & h1 & [HP ->]%lift_Some & Hfwd).
  apply bind_Some in Hfwd as (res1 & h1 & Hres & Hfwd).
  apply bind_Some in Hfwd as (o0 & h2 & Hinc & _).
  apply permute_0_1_3_2_inv in HP as (b & c' & t & e & -> & ->).
  apply residual_forward_inv in Hres
    as (b' & hh & w & [= -> -> -> ->] & He & Ht & Hone & _ & -> & Hact).
  by exists [b'; c; w; hh], b', w, hh, i0, o0, h2.
Qed.

End NetAccepts.

(** X5.  A constructed network returns only if its kernel unit is positive
    and, there being at least one convolution per module, odd; and only on
    an input that the normaliser turns into a 4-axis tensor of [in_channels]
    channels.  For an even kernel unit, as at 200 Hz with the default
    [kernel_unit_s], no input is ever accepted. *)
Theorem network_returns_only_if (Ensure4d : shape → option shape)
    (c ncls : Z) (ws sf : float) (n f : Z) (ks : float) (act : loc)
    (θ : nat → nat → unit) (net : EEGInceptionMI.t shape unit) (ku : Z)
    (X out : shape) (h h' : gmap loc unit) :
  EEGInceptionMI.__init__ Ensure4d c ncls ws sf n f ks act θ = Some net →
  Py.int (ks * sf)%float = Some ku →
  EEGInceptionMI.forward net X h = Some (out, h') →
  1 ≤ ku ∧ (Z.odd ku = true ∨ n ≤ 0)
  ∧ ∃ b t e, Ensure4d X = Some [b; c; t; e] ∧ 1 ≤ t ∧ 1 ≤ e.
Proof.
  intros Hinit Hku Hfwd.
  destruct (forward_reaches_inception Ensure4d c ncls ws sf n f ks act θ net
              Hinit X out h h' Hfwd)
    as (X' & b & t & e & i0 & o0 & h1
        & HE & -> & He & Ht & _ & Hact & Hi0 & Hinc).
  destruct (inception_forward_requires c f n ks sf act (θ 0%nat) i0 ku _ _ _ _
              Hi0 Hku Hinc) as (_ & _ & Hk & Hodd & _).
  split_and!; try done. by exists b, t, e.
Qed.

Lemma network_returns_only_if_example :
  1 ≤ 25 ∧ (Z.odd 25 = true ∨ 5 ≤ 0)
  ∧ ∃ b t e, append_singleton_axes [2; 22; 1125] = Some [b; 22; t; e]
             ∧ 1 ≤ t ∧ 1 ≤ e.
Proof.
  eapply (network_returns_only_if append_singleton_axes 22 4 4.5%float
            250%float 5 48 kernel_unit_s_default 1%positive (λ _ _, tt) _ 25
            [2; 22; 1125] [2; 4] {[ 1%positive := tt ]} {[ 1%positive := tt ]}).
  - vm_compute. reflexivity.
  - vm_compute. reflexivity.
  - vm_compute. reflexivity.
Defined.

(** X6.  For a constructed network with positive sizes and an odd kernel
    unit, a forward evaluation returns only on an input that the normaliser
    turns into (batch, in_channels, t, 1) with
    [input_window_samples ≤ t ≤ 2 * input_window_samples - 1] and more than
    one value per channel: a wrong channel count, a rank other than 4 after
    normalisation, or a last axis that is not a singleton all make it raise.
    On every such input of a positive batch size it returns
    (batch, n_classes). *)
Theorem network_returns_iff (Ensure4d : shape → option shape)
    (c ncls : Z) (ws sf : float) (n f : Z) (ks : float) (act : loc)
    (θ : nat → nat → unit) (net : EEGInceptionMI.t shape unit) (iws ku : Z)
    (X : shape) (h : gmap loc unit) :
  EEGInceptionMI.__init__ Ensure4d c ncls ws sf n f ks act θ = Some net →
  Py.int (ws * sf)%float = Some iws →
  Py.int (ks * sf)%float = Some ku →
  1 ≤ ku → Z.odd ku = true →
  1 ≤ c → 1 ≤ ncls → 0 ≤ n → 1 ≤ f → 1 ≤ iws →
  h !! act = Some tt →
  (∀ out h',
     EEGInceptionMI.forward net X h = Some (out, h') →
     ∃ b t, Ensure4d X = Some [b; c; t; 1] ∧ iws ≤ t ≤ 2 * iws - 1
            ∧ b * t ≠ 1 ∧ out = [b; ncls])
  ∧ (∀ b t,
       Ensure4d X = Some [b; c; t; 1] → 1 ≤ b → iws ≤ t ≤ 2 * iws - 1 →
       2 ≤ b * t →
       fst <$> EEGInceptionMI.forward net X h = Some [b; ncls]).
Proof.
  intros Hinit Hiws Hku Hku1 Hodd Hc Hcls Hn Hf Hiws1 Hact.
  pose proof (forward_shape_on Ensure4d c ncls ws sf n f ks act θ net iws ku
                Hinit Hiws Hku Hku1 Hodd Hn Hf Hc X) as Hrun.
  split.
  - intros out h' Hfwd.
    destruct (forward_reaches_inception Ensure4d c ncls ws sf n f ks act θ net
                Hinit X out h h' Hfwd)
      as (X' & b & t & e & _ & _ & _ & HE & -> & He & Ht & Hone & _).
    rewrite (Hrun b t e h Hiws1 HE He Ht Hone Hact) in Hfwd.
    case_bool_decide as Hin; [|done].
    destruct Hin as [-> Hr]. injection Hfwd as <- <-.
    exists b, t. split_and!; try done; lia.
  - intros b t HE Hb Hr Hmany.
    rewrite (Hrun b t 1 h Hiws1 HE) by (first [done | lia]).
    by rewrite bool_decide_eq_true_2.
Qed.

(** The reference network on a batch of 2 windows of 1125 samples. *)
Lemma network_returns_iff_example :
  ∃ net, reference append_singleton_axes 1%positive = Some net
    ∧ (∀ out h',
         EEGInceptionMI.forward net [2; 22; 1125] {[ 1%positive := tt ]}
         = Some (out, h') →
         ∃ b t, append_singleton_axes [2; 22; 1125] = Some [b; 22; t; 1]
                ∧ 1125 ≤ t ≤ 2 * 1125 - 1 ∧ b * t ≠ 1 ∧ out = [b; 4])
    ∧ fst <$> EEGInceptionMI.forward net [2; 22; 1125] {[ 1%positive := tt ]}
      = Some [2; 4].
Proof.
  destruct (reference append_singleton_axes 1%positive) as [net|] eqn:Hnet;
    [|by vm_compute in Hnet].
  exists net. split; [reflexivity|].
  destruct (network_returns_iff append_singleton_axes 22 4 4.5%float 250%float
              5 48 kernel_unit_s_default 1%positive (λ _ _, tt) net 1125 25
              [2; 22; 1125] {[ 1%positive := tt ]} Hnet)
    as [Honly Hif]; try first [reflexivity | lia].
  split; [exact Honly|].
  apply (Hif 2 1125); first [reflexivity | lia].
Defined.

(** ** A missing activation object *)

Section Effects.
Context {T P A : Type} `{!Torch T P, !Activation T A}.

Lemma inert_lift {X} (l : loc) (o : option X) : inert_without (A:=A) l (lift o).
Proof. intros h _. unfold lift. destruct o; simpl; eauto. Qed.

Lemma raises_bind_l {X Y} (l : loc) (m : M A X) (k : X → M A Y) :
  raises_without l m → raises_without l (bind m k).
Proof. intros Hm h Hl. by apply bind_None, Hm. Qed.

Lemma raises_bind_r {X Y} (l : loc) (m : M A X) (k : X → M A Y) :
  inert_without l m → (∀ x, raises_without l (k x)) →
  raises_without l (bind m k).
Proof.
  intros Hm Hk h Hl. destruct (Hm h Hl) as [Hnone|[y Hy]].
  - by apply bind_None.
  - rewrite (bind_run _ _ _ _ _ Hy). by apply Hk.
Qed.

Lemma raises_call (l : loc) (x : T) : raises_without l (call l x).
Proof. intros h Hl. unfold call. by rewrite Hl. Qed.

Lemma raises_inception (m : _InceptionModuleMI.t P) (X : T) :
  raises_without (_InceptionModuleMI.activation m)
    (_InceptionModuleMI.forward m X).
Proof.
  unfold _InceptionModuleMI.forward.
  repeat (apply raises_bind_r; [apply inert_lift|intros ?]).
  apply raises_call.
Qed.

Lemma raises_residual (m : _ResidualModuleMI.t P) (X : T) :
  raises_without (_ResidualModuleMI.activation m)
    (_ResidualModuleMI.forward m X).
Proof.
  unfold _ResidualModuleMI.forward.
  repeat (apply raises_bind_r; [apply inert_lift|intros ?]).
  apply raises_call.
Qed.
End Effects.

(** X8.  When the heap holds no object at the address given to the
    constructor as activation, every forward evaluation raises. *)
Theorem forward_raises_without_activation {T P A : Type}
    `{!Torch T P, !Activation T A}
    (Ensure4d : T → option T) (c ncls : Z) (ws sf : float) (n f : Z)
    (ks : float) (act : loc) (θ : nat → nat → P) (net : EEGInceptionMI.t T P)
    (X : T) (h : gmap loc A) :
  EEGInceptionMI.__init__ Ensure4d c ncls ws sf n f ks act θ = Some net →
  h !! act = None →
  EEGInceptionMI.forward net X h = None.
Proof.
  intros Hinit Hact.
  destruct (net_fields _ _ _ _ _ _ _ _ _ _ _ Hinit)
    as (iws & i0 & i1 & i2 & j1 & j2 & j3 & _ & _ & _ & _ & _ & _ & _ & ->).
  revert h Hact. change (raises_without act
    (EEGInceptionMI.forward
       (EEGInceptionMI.mk c ncls ws iws sf n f ks act Ensure4d
          (Expression _transpose_to_b_c_1_t) i0 [i1; i2]
          (_ResidualModuleMI.__init__ c ((n + 1) * f) act (θ 3%nat))
          [j1; j2; j3]
          (_ResidualModuleMI.__init__ ((n + 1) * f) ((n + 1) * f) act
             (θ 7%nat))
          (mkAvgPool2d (1, iws)) mkFlatten
          (mkLinear ((n + 1) * f) ncls true (θ 8%nat 0%nat))
          (mkLogSoftmax 1)) X)).
  unfold EEGInceptionMI.forward.
  cbn [EEGInceptionMI.ensuredims EEGInceptionMI.dimshuffle
       EEGInceptionMI.residual_block_1].
  do 2 (apply raises_bind_r; [apply inert_lift|intros ?]).
  apply raises_bind_l.
  apply (raises_residual (_ResidualModuleMI.__init__ c ((n + 1) * f) act (θ 3%nat))).
Qed.

Lemma forward_raises_without_activation_example :
  ∃ net, reference append_singleton_axes 1%positive = Some net
         ∧ EEGInceptionMI.forward net [2; 22; 1125]
             ({[ 2%positive := tt ]} : gmap loc unit) = None.
Proof.
  destruct (reference append_singleton_axes 1%positive) as [net|] eqn:Hnet;
    [|by vm_compute in Hnet].
  exists net. split; [reflexivity|].
  apply (forward_raises_without_activation append_singleton_axes 22 4 4.5%float
           250%float 5 48 kernel_unit_s_default 1%positive (λ _ _, tt) net).
  - exact Hnet.
  - reflexivity.
Defined.

(** ** The shared activation object is called once per submodule *)

Section Counting.
#[local] Existing Instance counting_activation.

Lemma calls_lift {X} (l : loc) (o : option X) : calls_times 0 l (lift o).
Proof.
  intros h y h' k [_ ->]%lift_Some Hk.
  rewrite Nat.add_0_r. by rewrite insert_id.
Qed.

Lemma calls_ret {X} (l : loc) (x : X) : calls_times 0 l (ret x).
Proof.
  intros h y h' k [= _ <-] Hk. rewrite Nat.add_0_r. by rewrite insert_id.
Qed.

Lemma calls_bind {X Y} (j1 j2 : nat) (l : loc) (m : M nat X) (k : X → M nat Y) :
  calls_times j1 l m → (∀ x, calls_times j2 l (k x)) →
  calls_times (j1 + j2) l (bind m k).
Proof.
  intros Hm Hk h y h' k0 (x & h1 & H1 & H2)%bind_Some Hl.
  pose proof (Hm h x h1 k0 H1 Hl) as ->.
  rewrite (Hk x _ y h' (k0 + j1)%nat H2) by apply lookup_insert_eq.
  rewrite insert_insert_eq. f_equal. lia.
Qed.

Lemma calls_call (l : loc) (x : shape) : calls_times 1 l (call l x).
Proof.
  intros h y h' k. unfold call. intros Hc Hk. rewrite Hk in Hc.
  simpl in Hc. injection Hc as _ <-. f_equal. lia.
Qed.

Lemma calls_inception (m : _InceptionModuleMI.t unit) (X : shape) :
  calls_times 1 (_InceptionModuleMI.activation m)
    (_InceptionModuleMI.forward m X).
Proof.
  unfold _InceptionModuleMI.forward.
  repeat (apply (calls_bind 0); [apply calls_lift|intros ?]).
  apply calls_call.
Qed.

Lemma calls_residual (m : _ResidualModuleMI.t unit) (X : shape) :
  calls_times 1 (_ResidualModuleMI.activation m)
    (_ResidualModuleMI.forward m X).
Proof.
  unfold _ResidualModuleMI.forward.
  repeat (apply (calls_bind 0); [apply calls_lift|intros ?]).
  apply calls_call.
Qed.

(** X9.  With an activation that counts its calls, a forward evaluation
    that returns has called the one object given to the constructor exactly
    eight times, once for each residual block and Inception module, and has
    left the rest of the heap as it was: a stateful activation passed to the
    constructor is shared by all eight submodules. *)
Theorem forward_calls_activation_eight_times
    (Ensure4d : shape → option shape) (c ncls : Z) (ws sf : float) (n f : Z)
    (ks : float) (act : loc) (θ : nat → nat → unit)
    (net : EEGInceptionMI.t shape unit) (X y : shape) (h h' : gmap loc nat)
    (calls : nat) :
  EEGInceptionMI.__init__ Ensure4d c ncls ws sf n f ks act θ = Some net →
  h !! act = Some calls →
  EEGInceptionMI.forward net X h = Some (y, h') →
  h' = <[act := (calls + 8)%nat]> h.
Proof.
  intros Hinit Hact Hfwd.
  destruct (net_fields _ _ _ _ _ _ _ _ _ _ _ Hinit)
    as (iws & i0 & i1 & i2 & j1 & j2 & j3
        & Hiws & Hi0 & Hi1 & Hi2 & Hj1 & Hj2 & Hj3 & ->).
  apply inception_init_activation in Hi0, Hi1, Hi2, Hj1, Hj2, Hj3.
  assert (∀ (m : _InceptionModuleMI.t unit) x,
            _InceptionModuleMI.activation m = act →
            calls_times 1 act (_InceptionModuleMI.forward m x)) as Hinc.
  { intros m x <-. apply calls_inception. }
  assert (∀ ci co θ' x,
            calls_times 1 act
              (_ResidualModuleMI.forward
                 (_ResidualModuleMI.__init__ ci co act θ') x)) as Hres.
  { intros ci co θ' x.
    apply (calls_residual (_ResidualModuleMI.__init__ ci co act θ')). }
  revert Hfwd Hact. unfold EEGInceptionMI.forward.
  cbn [EEGInceptionMI.ensuredims EEGInceptionMI.dimshuffle
       EEGInceptionMI.residual_block_1 EEGInceptionMI.residual_block_2
       EEGInceptionMI.initial_inception_module
       EEGInceptionMI.intermediate_inception_modules_1
       EEGInceptionMI.intermediate_inception_modules_2
       EEGInceptionMI.ave_pooling EEGInceptionMI.flat EEGInceptionMI.fc
       EEGInceptionMI.softmax for_in].
  intros Hfwd Hact.
  refine ((_ : calls_times (0 + (0 + (1 + (1 + ((1 + (1 + 0)) + (0 + (1 +
             ((1 + (1 + (1 + 0))) + (0 + (0 + (0 + (0 + 0))))))))))))
             act _) h y h' calls Hfwd Hact).
  repeat first
    [ apply calls_lift
    | apply calls_ret
    | by apply Hinc
    | apply Hres
    | apply calls_bind; [|intros ?] ].
Qed.

(** The reference network with a counter at address 1 and another object at
    address 2. *)
Lemma forward_calls_activation_eight_times_example :
  ∃ net, reference append_singleton_axes 1%positive = Some net
         ∧ ({[ 1%positive := 8%nat; 2%positive := 5%nat ]} : gmap loc nat)
           = <[ 1%positive := (0 + 8)%nat ]>
               {[ 1%positive := 0%nat; 2%positive := 5%nat ]}.
Proof.
  destruct (reference append_singleton_axes 1%positive) as [net|] eqn:Hnet;
    [|by vm_compute in Hnet].
  exists net. split; [reflexivity|].
  apply (forward_calls_activation_eight_times append_singleton_axes 22 4
           4.5%float 250%float 5 48 kernel_unit_s_default 1%positive
           (λ _ _, tt) net [2; 22; 1125] [2; 4]).
  - exact Hnet.
  - reflexivity.
  - vm_compute in Hnet. injection Hnet as <-. vm_compute. reflexivity.
Defined.

End Counting.

(** ** An even kernel unit *)

(** X10.  With a positive, even kernel unit an Inception module that has at
    least one convolution raises on every input, and one that has none
    returns a time axis one sample longer than its input. *)
Theorem inception_even_kernel_unit (c f n : Z) (ks sf : float) (act : loc)
    (θ : nat → unit) (m : _InceptionModuleMI.t unit) (ku : Z) :
  _InceptionModuleMI.__init__ c f n ks sf act θ = Some m →
  Py.int (ks * sf)%float = Some ku →
  1 ≤ ku → Z.odd ku = false →
  (1 ≤ n → ∀ (X : shape) (h : gmap loc unit),
             _InceptionModuleMI.forward m X h = None)
  ∧ (n = 0 → ∀ b hh w (h : gmap loc unit),
       c ≠ 0 → 1 ≤ hh → 1 ≤ w → h !! act = Some tt →
       _InceptionModuleMI.forward m [b; c; hh; w] h
       = Some ([b; f; hh; w + 1], h)).
Proof.
  intros Hinit Hku Hk Heven. split.
  - intros Hn X h.
    destruct (_InceptionModuleMI.forward m X h) as [[out h']|] eqn:Hfwd; [|done].
    destruct (inception_forward_requires c f n ks sf act θ m ku X out h h'
                Hinit Hku Hfwd) as (_ & _ & _ & [Hodd|Hn0] & _).
    + congruence.
    + lia.
  - intros -> b hh w h Hc Hh Hw Hact.
    rewrite (inception_forward_shape c f 0 ks sf act θ m ku Hinit Hku) by done.
    by rewrite Heven.
Qed.

(** At 200 Hz the kernel unit is 20 samples. *)
Lemma inception_even_kernel_unit_example :
  ∃ m0 m5,
    _InceptionModuleMI.__init__ 22 48 0 kernel_unit_s_default 200%float
      1%positive (λ _, tt) = Some m0
    ∧ _InceptionModuleMI.__init__ 22 48 5 kernel_unit_s_default 200%float
        1%positive (λ _, tt) = Some m5
    ∧ _InceptionModuleMI.forward m0 [2; 22; 1; 900] {[ 1%positive := tt ]}
      = Some ([2; 48; 1; 900 + 1], {[ 1%positive := tt ]})
    ∧ _InceptionModuleMI.forward m5 [2; 22; 1; 900] {[ 1%positive := tt ]}
      = None.
Proof.
  eexists _, _. split; [vm_compute; reflexivity|].
  split; [vm_compute; reflexivity|]. split.
  - eapply (inception_even_kernel_unit 22 48 0 kernel_unit_s_default
              200%float 1%positive (λ _, tt) _ 20);
      first [reflexivity | lia | done].
  - eapply (inception_even_kernel_unit 22 48 5 kernel_unit_s_default
              200%float 1%positive (λ _, tt) _ 20);
      first [reflexivity | lia | done].
Defined.
